(** * ChronoLog reader script: query orchestration and teardown

    A shallow embedding of
    [mcps/Chronolog/src/chronomcp/reader_script/reader.cpp]:
    the flag loop of [main], the read-and-print body, the two release
    loops, and the [SIGINT] handler [signalHandler].

    The program is modelled as it is written: the two globals
    [list_of_chunks] and [agent_ptr] live in an explicit process state,
    every observable effect (a print, a [delete], a call into the archive
    reading agent) is appended to a trace, and a process ends in one of
    three ways: [return]/[std::exit] with a code, [std::terminate] after an
    exception nobody catches, or death by a signal whose handler is not
    installed. *)

From Stdlib Require Import ZArith Ascii String List Lia.
From stdpp Require Import base option list gmap strings pretty.

Import ListNotations.
Local Open Scope string_scope.
Local Open Scope list_scope.
Local Open Scope Z_scope.

(** ** Values *)

Definition addr := nat.

(** [uint64_t]: a [Z] kept in [0, 2^64). *)
Definition ULLONG_MAX : Z := 18446744073709551615.
Definition wrap64 (z : Z) : Z := z mod 2 ^ 64.

Definition EXIT_FAILURE : Z := 1.
Definition SIGINT : Z := 2.

(** [operator<<] on an unsigned integer prints it in decimal. *)
Definition show (z : Z) : string := pretty (Z.to_N z).

(** [operator<<] on a signed integer prints it in decimal, with its sign. *)
Definition show_int (z : Z) : string := pretty z.

(** Modelled from the spec: [chronolog::LogEvent] and
    [chronolog::StoryChunk] are declared in headers that are not part of
    the script.  The script reads five fields of an event, asks a chunk for
    its event count, and iterates over the chunk's [(key, event)] pairs in
    the container's order; the count is "derived from the mapping's size".
    The event timestamp is a signed 64-bit number, the identifiers and the
    index are unsigned. *)
Record LogEvent := {
  storyId : Z;
  eventTime : Z;
  clientId : Z;
  eventIndex : Z;
  logRecord : string
}.

Record StoryChunk := { events : list LogEvent }.

Definition getEventCount (c : StoryChunk) : Z := Z.of_nat (length (events c)).

(** ** [std::stoull] *)

Inductive Exn :=
| invalid_argument (what : string)
| out_of_range (what : string)
| foreign_exception (what : string).

Definition is_space (c : ascii) : bool :=
  let n := nat_of_ascii c in
  (n =? 32)%nat || ((9 <=? n)%nat && (n <=? 13)%nat).

Definition digit_val (c : ascii) : option Z :=
  let n := Z.of_nat (nat_of_ascii c) in
  if ((48 <=? n) && (n <=? 57))%Z then Some (n - 48)%Z else None.

Fixpoint skip_space (s : string) : string :=
  match s with
  | String c r => if is_space c then skip_space r else s
  | EmptyString => s
  end.

(** The longest prefix of decimal digits. *)
Fixpoint take_digits (s : string) : list Z :=
  match s with
  | String c r =>
      match digit_val c with
      | Some d => d :: take_digits r
      | None => []
      end
  | EmptyString => []
  end.

Definition digits_value (ds : list Z) : Z :=
  fold_left (fun acc d => acc * 10 + d)%Z ds 0%Z.

(** [std::stoull(str)] is [strtoull(str.c_str(), &end, 10)]: leading white
    space is skipped, one sign is accepted, the digits that follow are
    read and whatever comes after them is left alone.  No digit at all
    throws [std::invalid_argument]; a magnitude above [ULLONG_MAX] throws
    [std::out_of_range]; a minus sign negates in the unsigned type. *)
Definition stoull (s : string) : Exn + Z :=
  let s1 := skip_space s in
  let '(neg, s2) :=
    match s1 with
    | String "-"%char r => (true, r)
    | String "+"%char r => (false, r)
    | _ => (false, s1)
    end in
  match take_digits s2 with
  | [] => inl (invalid_argument "stoull")
  | ds =>
      let v := digits_value ds in
      if ULLONG_MAX <? v then inl (out_of_range "stoull")
      else inr (if neg then wrap64 (- v) else v)
  end.

(** ** The flag loop (reader.cpp, lines 26-47) *)

Record Query := {
  conf_file : string;
  chronicle_name : string;
  story_name : string;
  start_time : Z;
  end_time : Z
}.

Definition default_query : Query :=
  {| conf_file := "";
     chronicle_name := "LLM";
     story_name := "conversation";
     start_time := 1736800000000000000;
     end_time := wrap64 (1745539189396295796 + 1000000000000000) |}.

Definition set_conf_file (v : string) (q : Query) : Query :=
  {| conf_file := v; chronicle_name := chronicle_name q;
     story_name := story_name q; start_time := start_time q;
     end_time := end_time q |}.
Definition set_chronicle_name (v : string) (q : Query) : Query :=
  {| conf_file := conf_file q; chronicle_name := v;
     story_name := story_name q; start_time := start_time q;
     end_time := end_time q |}.
Definition set_story_name (v : string) (q : Query) : Query :=
  {| conf_file := conf_file q; chronicle_name := chronicle_name q;
     story_name := v; start_time := start_time q;
     end_time := end_time q |}.
Definition set_start_time (v : Z) (q : Query) : Query :=
  {| conf_file := conf_file q; chronicle_name := chronicle_name q;
     story_name := story_name q; start_time := v;
     end_time := end_time q |}.
Definition set_end_time (v : Z) (q : Query) : Query :=
  {| conf_file := conf_file q; chronicle_name := chronicle_name q;
     story_name := story_name q; start_time := start_time q;
     end_time := v |}.

(** [flag_loop args q] runs the loop over [argv[1..argc)].  A flag is
    only honoured when a value follows it ([i+1 < argc]) and then consumes
    that value ([argv[++i]]); anything else advances by one argument.  The
    loop can only leave early through an exception of [std::stoull]. *)
Fixpoint flag_loop (args : list string) (q : Query) : Exn + Query :=
  match args with
  | [] => inr q
  | a :: rest =>
      match rest with
      | v :: rest' =>
          if (a =? "-c")%string || (a =? "--config")%string then
            flag_loop rest' (set_conf_file v q)
          else if (a =? "-C")%string then
            flag_loop rest' (set_chronicle_name v q)
          else if (a =? "-S")%string then
            flag_loop rest' (set_story_name v q)
          else if (a =? "-st")%string || (a =? "--start")%string then
            match stoull v with
            | inr n => flag_loop rest' (set_start_time n q)
            | inl e => inl e
            end
          else if (a =? "-et")%string || (a =? "--end")%string then
            match stoull v with
            | inr n => flag_loop rest' (set_end_time n q)
            | inl e => inl e
            end
          else flag_loop rest q
      | [] => inr q
      end
  end.

Definition nl : string := String "010"%char EmptyString.
Definition dquote : string := String "034"%char EmptyString.

Definition usage (argv0 : string) : string :=
  ("Usage: " ++ argv0 ++ " -c <config.json>" ++ " [-C chronicle] [-S story]"
   ++ " [-s startTime] [-e endTime]" ++ nl)%string.

(** ** The collaborators

    The configuration manager, the logger and the archive reading agent
    are linked in from ChronoLog; the script only calls them.  Each call
    either returns a value or throws, and what it does is a parameter of
    every theorem below. *)

Inductive Outcome (A : Type) :=
| Returns (a : A)
| Throws (e : Exn).
Arguments Returns {A} a.
Arguments Throws {A} e.

Record ClientLogConf := {
  LOGTYPE : string; LOGFILE : string; LOGLEVEL : Z; LOGNAME : string;
  LOGFILESIZE : Z; LOGFILENUM : Z; FLUSHLEVEL : Z
}.

Record Configuration := {
  CLIENT_LOG_CONF : ClientLogConf;
  story_files_dir : string
}.

(** What [readArchivedStory] does to its out-parameter and how it ends:
    the chunks it created and appended, then a status or an exception. *)
Record ReadOutcome := {
  delivered : list StoryChunk;
  read_status : Outcome Z
}.

Record World := {
  ConfigurationManager : string -> Outcome Configuration;
  chrono_monitor_initialize : ClientLogConf -> Outcome Z;
  agent_initialize : string -> Outcome Z;
  agent_readArchivedStory :
    string -> string -> string -> Z -> Z -> ReadOutcome;
  agent_shutdown : string -> Outcome Z
}.

(** ** Process state, trace and ways to end *)

Inductive Event :=
| EvOut (s : string)
| EvErr (s : string)
| EvConfigure (path : string)
| EvMonitorInit
| EvSignal
| EvNewAgent (archive_path : string)
| EvInitialize
| EvRead (chronicle story : string) (t0 t1 : Z) (out : list addr)
| EvDelete (a : addr) (live : bool)
| EvClear
| EvShutdown
| EvDeleteAgent.

Inductive Status :=
| Exited (code : Z)
| Terminated (e : Exn)
| Killed (sig : Z).

Definition SIGSEGV : Z := 11.

(** [list_of_chunks] and [agent_ptr] are the script's globals; [heap]
    holds the chunks that are alive, by address; [pending] is the number
    of statements the process still executes before [SIGINT] arrives
    ([None]: no signal in this run). *)
Record Proc := {
  list_of_chunks : list addr;
  agent_ptr : option string;
  heap : gmap addr StoryChunk;
  next_addr : addr;
  sigint_handler : bool;
  pending : option nat;
  trace : list Event
}.

Inductive Res (A : Type) :=
| Val (a : A) (p : Proc)
| Halt (st : Status) (p : Proc).
Arguments Val {A} a p.
Arguments Halt {A} st p.

Definition M (A : Type) : Type := Proc -> Res A.

Definition ret {A} (a : A) : M A := fun p => Val a p.

Definition bind {A B} (m : M A) (k : A -> M B) : M B :=
  fun p => match m p with
           | Val a p' => k a p'
           | Halt st p' => Halt st p'
           end.

Definition halt {A} (st : Status) : M A := fun p => Halt st p.

Declare Scope proc_scope.
Delimit Scope proc_scope with proc.
Notation "x <~ m ;; k" := (bind m (fun x => k))
  (at level 100, m at next level, right associativity) : proc_scope.
Notation "m ;; k" := (bind m (fun _ => k))
  (at level 100, right associativity) : proc_scope.
Local Open Scope proc_scope.

Definition emit (e : Event) : M unit := fun p =>
  Val tt {| list_of_chunks := list_of_chunks p; agent_ptr := agent_ptr p;
            heap := heap p; next_addr := next_addr p;
            sigint_handler := sigint_handler p; pending := pending p;
            trace := trace p ++ [e] |}.

Definition out (s : string) : M unit := emit (EvOut s).
Definition err (s : string) : M unit := emit (EvErr s).

(** A call into a collaborator: an exception is caught nowhere in the
    script, so it ends the process through [std::terminate]. *)
Definition call {A} (o : Outcome A) : M A :=
  match o with
  | Returns a => ret a
  | Throws e => halt (Terminated e)
  end.

Definition get_list : M (list addr) := fun p => Val (list_of_chunks p) p.
Definition get_agent : M (option string) := fun p => Val (agent_ptr p) p.

Definition set_list (l : list addr) : M unit := fun p =>
  Val tt {| list_of_chunks := l; agent_ptr := agent_ptr p;
            heap := heap p; next_addr := next_addr p;
            sigint_handler := sigint_handler p; pending := pending p;
            trace := trace p |}.

Definition set_agent (a : option string) : M unit := fun p =>
  Val tt {| list_of_chunks := list_of_chunks p; agent_ptr := a;
            heap := heap p; next_addr := next_addr p;
            sigint_handler := sigint_handler p; pending := pending p;
            trace := trace p |}.

Definition set_handler : M unit := fun p =>
  Val tt {| list_of_chunks := list_of_chunks p; agent_ptr := agent_ptr p;
            heap := heap p; next_addr := next_addr p;
            sigint_handler := true; pending := pending p;
            trace := trace p |}.

(** [delete c]: the chunk leaves the heap.  The event records whether the
    address still held a chunk; [live = false] is a second [delete] of the
    same pointer, which C++ leaves undefined.  The model records it and
    goes on with the program text.  C++ gives no meaning to what follows
    such a [delete]: a trace speaks for the process up to its first
    [EvDelete a false], and after it only for the program text. *)
Definition delete_chunk (a : addr) : M unit := fun p =>
  Val tt {| list_of_chunks := list_of_chunks p; agent_ptr := agent_ptr p;
            heap := delete a (heap p); next_addr := next_addr p;
            sigint_handler := sigint_handler p; pending := pending p;
            trace := trace p ++ [EvDelete a (bool_decide (is_Some (heap p !! a)))] |}.

(** [*chunk]: reading through a pointer whose chunk is gone has no value
    to give; the process is taken to die there. *)
Definition chunk_at (a : addr) : M StoryChunk := fun p =>
  match heap p !! a with
  | Some c => Val c p
  | None => Halt (Killed SIGSEGV) p
  end.

(** [agent_ptr->...] *)
Definition the_agent : M string := fun p =>
  match agent_ptr p with
  | Some h => Val h p
  | None => Halt (Killed SIGSEGV) p
  end.

(** The range-based [for]: the body runs once per element, in order. *)
Fixpoint for_each {A} (l : list A) (body : A -> M unit) : M unit :=
  match l with
  | [] => ret tt
  | x :: l' => body x ;; for_each l' body
  end.

(** New chunks get the next free addresses, in order. *)
Fixpoint store_chunks (n : addr) (cs : list StoryChunk)
    (h : gmap addr StoryChunk) : gmap addr StoryChunk :=
  match cs with
  | [] => h
  | c :: cs' => <[n := c]> (store_chunks (S n) cs' h)
  end.

(** [agent_ptr->readArchivedStory(chronicle, story, t0, t1, list_of_chunks)]:
    the chunks the agent created are appended to the global list, then the
    call returns its status or throws. *)
Definition read_story (w : World) (q : Query) : M Z :=
  h <~ the_agent ;;
  l <~ get_list ;;
  emit (EvRead (chronicle_name q) (story_name q) (start_time q) (end_time q) l) ;;
  let r := agent_readArchivedStory w h (chronicle_name q) (story_name q)
             (start_time q) (end_time q) in
  (fun p =>
     Val tt {| list_of_chunks :=
                 list_of_chunks p ++ seq (next_addr p) (length (delivered r));
               agent_ptr := agent_ptr p;
               heap := store_chunks (next_addr p) (delivered r) (heap p);
               next_addr := (next_addr p + length (delivered r))%nat;
               sigint_handler := sigint_handler p; pending := pending p;
               trace := trace p |}) ;;
  call (read_status r).

(** ** The program *)

Definition exit {A} (code : Z) : M A := halt (Exited code).

Definition interrupt_line (sig : Z) : string :=
  ("Interrupt (" ++ show_int sig ++ ")" ++ nl)%string.

Section Program.

Variable w : World.

(** [signalHandler] (reader.cpp, lines 17-22).  It never returns. *)
Definition signalHandler {A} (sig : Z) : M A :=
  out (interrupt_line sig) ;;
  l <~ get_list ;;
  for_each l delete_chunk ;;
  a <~ get_agent ;;
  match a with
  | Some h => emit EvShutdown ;; _ <~ call (agent_shutdown w h) ;;
              emit EvDeleteAgent
  | None => ret tt
  end ;;
  exit sig.

(** What the arrival of a signal does: the handler if [signal(SIGINT, ...)]
    has been executed, the default action (the process is killed)
    otherwise. *)
Definition deliver {A} (sig : Z) : M A := fun p =>
  if sigint_handler p then signalHandler sig p else Halt (Killed sig) p.

Definition with_pending (n : option nat) (p : Proc) : Proc :=
  {| list_of_chunks := list_of_chunks p; agent_ptr := agent_ptr p;
     heap := heap p; next_addr := next_addr p;
     sigint_handler := sigint_handler p; pending := n;
     trace := trace p |}.

(** One statement of [main]: the signal, if it is due, arrives before the
    statement starts.  A signal arrives only between the statements so
    marked: the construction of the agent and the assignment to
    [agent_ptr] (line 74) are one step, and so are the call of
    [readArchivedStory] and the filling of the list (lines 80-82). *)
Definition at_point {A} (m : M A) : M A := fun p =>
  match pending p with
  | None => m p
  | Some (S n) => m (with_pending (Some n) p)
  | Some O => deliver SIGINT (with_pending None p)
  end.

Definition chunk_header (c : StoryChunk) : string :=
  ("Chunk with " ++ show (getEventCount c) ++ " events:" ++ nl)%string.

Definition event_line (e : LogEvent) : string :=
  ("  storyId=" ++ show (storyId e) ++ ", time=" ++ show_int (eventTime e)
   ++ ", clientId=" ++ show (clientId e) ++ ", index=" ++ show (eventIndex e)
   ++ ", record=" ++ dquote ++ logRecord e ++ dquote ++ nl)%string.

(** The body of the printing loop (lines 86-96), [delete chunk] included. *)
Definition print_chunk (a : addr) : M unit :=
  at_point (c <~ chunk_at a ;; out (chunk_header c)) ;;
  c <~ chunk_at a ;;
  for_each (events c) (fun e => at_point (out (event_line e))) ;;
  at_point (delete_chunk a).

(** Lines 85-97. *)
Definition render_chunks : M unit :=
  l <~ get_list ;;
  for_each l print_chunk.

Definition count_line (n : nat) : string :=
  (show (Z.of_nat n) ++ " chunk(s) returned." ++ nl)%string.

(** Lines 84-97. *)
Definition render : M unit :=
  at_point (l <~ get_list ;; out (count_line (length l))) ;;
  render_chunks.

(** Lines 99-103, "clean up story-chunks". *)
Definition release : M unit :=
  l <~ get_list ;;
  for_each l (fun a => at_point (delete_chunk a)) ;;
  at_point (emit EvClear ;; set_list []).

Definition reading_line (q : Query) : string :=
  ("Reading [" ++ show (start_time q) ++ "," ++ show (end_time q) ++ "] from "
   ++ chronicle_name q ++ "." ++ story_name q ++ nl)%string.

(** Lines 105-108.  The state does not record whether the agent is alive:
    [agent_ptr] is the pointer, and the trace tells the rest, an
    [EvShutdown] that follows an [EvDeleteAgent] being a call on a deleted
    agent. *)
Definition shutdown_agent : M unit :=
  at_point (h <~ the_agent ;; emit EvShutdown ;;
            _ <~ call (agent_shutdown w h) ;; ret tt) ;;
  at_point (emit EvDeleteAgent) ;;
  at_point (set_agent None).

(** Lines 56-110, entered with the query the flag loop produced.  The
    Argobots scope of line 70 ([tl::abt scope]) takes no part in what the
    script does with the collection and the agent, and is left out; it and
    the constructor of the agent (line 74) are taken to return. *)
Definition query_body (q : Query) : M Z :=
  conf <~ at_point (emit (EvConfigure (conf_file q)) ;;
                    call (ConfigurationManager w (conf_file q))) ;;
  r <~ at_point (emit EvMonitorInit ;;
                 call (chrono_monitor_initialize w (CLIENT_LOG_CONF conf))) ;;
  if r =? 1 then ret EXIT_FAILURE else
  at_point (emit EvSignal ;; set_handler) ;;
  let archive_path := story_files_dir conf in
  at_point (emit (EvNewAgent archive_path) ;; set_agent (Some archive_path)) ;;
  at_point (h <~ the_agent ;; emit EvInitialize ;;
            _ <~ call (agent_initialize w h) ;; ret tt) ;;
  at_point (out (reading_line q)) ;;
  at_point (_ <~ read_story w q ;; ret tt) ;;
  render ;;
  release ;;
  shutdown_agent ;;
  ret 0.

(** [main(argc, argv)], with [argv[0]] and [argv[1..argc)] apart. *)
Definition main (argv0 : string) (args : list string) : M Z :=
  match flag_loop args default_query with
  | inl e => halt (Terminated e)
  | inr q =>
      if (conf_file q =? "")%string then
        at_point (err (usage argv0)) ;; ret EXIT_FAILURE
      else query_body q
  end.

Definition init_proc (sig : option nat) : Proc :=
  {| list_of_chunks := []; agent_ptr := None; heap := ∅; next_addr := 0%nat;
     sigint_handler := false; pending := sig; trace := [] |}.

(** A whole run: how the process ended and the state it left. *)
Definition run (argv0 : string) (args : list string) (sig : option nat)
  : Status * Proc :=
  match main argv0 args (init_proc sig) with
  | Val code p => (Exited code, p)
  | Halt st p => (st, p)
  end.

End Program.

(** ** Reading a trace *)

(** The addresses handed to [delete], in order, and those among them
    that no longer held a chunk. *)
Definition deleted (tr : list Event) : list addr :=
  omap (fun e => match e with EvDelete a _ => Some a | _ => None end) tr.
Definition double_freed (tr : list Event) : list addr :=
  omap (fun e => match e with EvDelete a false => Some a | _ => None end) tr.
Definition deletes_of (a : addr) (tr : list Event) : nat :=
  count_occ Nat.eq_dec (deleted tr) a.

(** The calls of [readArchivedStory]: arguments and the collection passed. *)
Definition reads (tr : list Event)
  : list (string * string * Z * Z * list addr) :=
  omap (fun e => match e with
                 | EvRead c s t0 t1 l => Some (c, s, t0, t1, l)
                 | _ => None
                 end) tr.
Definition shutdowns (tr : list Event) : nat :=
  length (omap (fun e => match e with EvShutdown => Some tt | _ => None end) tr).
Definition agents_opened (tr : list Event) : nat :=
  length (omap (fun e => match e with
                         | EvNewAgent _ | EvInitialize => Some tt
                         | _ => None
                         end) tr).

Definition stdout (tr : list Event) : list string :=
  omap (fun e => match e with EvOut s => Some s | _ => None end) tr.
Definition stderr (tr : list Event) : list string :=
  omap (fun e => match e with EvErr s => Some s | _ => None end) tr.

(** Every way to end but [return 0]/[exit(0)] is a failure for the caller. *)
Definition nonzero (st : Status) : Prop := st <> Exited 0.

(** ** Sample worlds *)

Definition sample_conf : Configuration :=
  {| CLIENT_LOG_CONF :=
       {| LOGTYPE := "file"; LOGFILE := "reader.log"; LOGLEVEL := 1;
          LOGNAME := "reader"; LOGFILESIZE := 1048576; LOGFILENUM := 3;
          FLUSHLEVEL := 2 |};
     story_files_dir := "/tmp/archive" |}.

Definition ev (t i : Z) (r : string) : LogEvent :=
  {| storyId := 7; eventTime := t; clientId := 1; eventIndex := i;
     logRecord := r |}.

Definition chunk_A : StoryChunk :=
  {| events := [ev 1000 0 "a"; ev 1500 1 "b"; ev 1999 2 "c"] |}.
Definition chunk_B : StoryChunk := {| events := [ev 2500 0 "d"] |}.

(** A world in which everything works and the archive holds [cs]. *)
Definition world_of (cs : list StoryChunk) : World :=
  {| ConfigurationManager := fun _ => Returns sample_conf;
     chrono_monitor_initialize := fun _ => Returns 0;
     agent_initialize := fun _ => Returns 0;
     agent_readArchivedStory := fun _ _ _ _ _ =>
       {| delivered := cs; read_status := Returns 0 |};
     agent_shutdown := fun _ => Returns 0 |}.

(** ** Vocabulary of the statements *)

Definition window_flag (a : string) : bool :=
  (a =? "-st")%string || (a =? "--start")%string
  || (a =? "-et")%string || (a =? "--end")%string.

Definition config_flag (a : string) : bool :=
  (a =? "-c")%string || (a =? "--config")%string.

(** A state that differs from [p] in its heap and its trace only. *)
Definition set_ht (h : gmap addr StoryChunk) (t : list Event) (p : Proc) : Proc :=
  {| list_of_chunks := list_of_chunks p; agent_ptr := agent_ptr p;
     heap := h; next_addr := next_addr p;
     sigint_handler := sigint_handler p; pending := pending p;
     trace := t |}.

(** What a loop of [delete]s over [l] leaves of the heap and adds to the
    trace. *)
Fixpoint drop_all (l : list addr) (h : gmap addr StoryChunk)
  : gmap addr StoryChunk :=
  match l with
  | [] => h
  | a :: l' => drop_all l' (delete a h)
  end.

Fixpoint delete_events (h : gmap addr StoryChunk) (l : list addr)
  : list Event :=
  match l with
  | [] => []
  | a :: l' =>
      EvDelete a (bool_decide (is_Some (h !! a))) :: delete_events (delete a h) l'
  end.

(** The text of one chunk: its header, then one line per record. *)
Definition chunk_text (c : StoryChunk) : list string :=
  chunk_header c :: map event_line (events c).

(** The rendering the design document asks for: the chunks in collection
    order, each as its event count followed by its records in index order. *)
Definition rendering (cs : list StoryChunk) : list string :=
  flat_map chunk_text cs.

(** The events of the printing loop over chunks [lc], given with their
    addresses. *)
Definition print_events (lc : list (addr * StoryChunk)) : list Event :=
  flat_map (fun ac => (map EvOut (chunk_text (snd ac))
                       ++ [EvDelete (fst ac) true])%list) lc.

(** The trace of a run up to the return of [readArchivedStory], and the
    state in which the call leaves the process when the agent delivered
    [cs] and [SIGINT] is due after [sig] more statements. *)
Definition prefix_trace (q : Query) (conf : Configuration) : list Event :=
  [EvConfigure (conf_file q); EvMonitorInit; EvSignal;
   EvNewAgent (story_files_dir conf); EvInitialize; EvOut (reading_line q);
   EvRead (chronicle_name q) (story_name q) (start_time q) (end_time q) []].

Definition after_read (q : Query) (conf : Configuration)
    (cs : list StoryChunk) (sig : option nat) : Proc :=
  {| list_of_chunks := seq 0%nat (length cs);
     agent_ptr := Some (story_files_dir conf);
     heap := store_chunks 0%nat cs ∅;
     next_addr := length cs;
     sigint_handler := true;
     pending := sig;
     trace := prefix_trace q conf |}.

(** The call of [readArchivedStory] that [main] makes for query [q]. *)
Definition the_read (w : World) (q : Query) (conf : Configuration) : ReadOutcome :=
  agent_readArchivedStory w (story_files_dir conf) (chronicle_name q)
    (story_name q) (start_time q) (end_time q).

(** [SIGINT] arrives [n] statements later than [sig] says. *)
Definition later (n : nat) (sig : option nat) : option nat :=
  match sig with
  | Some k => Some (n + k)%nat
  | None => None
  end.

(** The trace and the final state of a run in which every collaborator
    returns, no signal arrives, and the agent delivered [cs]. *)
Definition normal_trace (q : Query) (conf : Configuration)
    (cs : list StoryChunk) : list Event :=
  prefix_trace q conf
  ++ [EvOut (count_line (length cs))]
  ++ print_events (zip (seq 0%nat (length cs)) cs)
  ++ map (fun a => EvDelete a false) (seq 0%nat (length cs))
  ++ [EvClear; EvShutdown; EvDeleteAgent].

Definition after_normal (q : Query) (conf : Configuration)
    (cs : list StoryChunk) : Proc :=
  {| list_of_chunks := [];
     agent_ptr := None;
     heap := drop_all (seq 0%nat (length cs))
               (drop_all (seq 0%nat (length cs)) (store_chunks 0%nat cs ∅));
     next_addr := length cs;
     sigint_handler := true;
     pending := None;
     trace := normal_trace q conf cs |}.

(** The state a computation ends in, and what a monitor of the collection
    sees of a state: the global list and the reads made so far. *)
Definition final {A} (r : Res A) : Proc :=
  match r with
  | Val _ p => p
  | Halt _ p => p
  end.

Definition obs (p : Proc) : list addr * list (string * string * Z * Z * list addr) :=
  (list_of_chunks p, reads (trace p)).

(** A computation is calm when it neither touches the global list nor
    reads the archive, and cannot end the process with status 0. *)
Definition calm {A} (m : M A) : Prop :=
  forall p, match m p with
            | Val _ p' => obs p' = obs p
            | Halt st p' => obs p' = obs p /\ st <> Exited 0
            end.

(** The one call of [readArchivedStory] a run for query [q] may make: the
    query's names and window, and an empty collection to fill. *)
Definition the_call (q : Query) : string * string * Z * Z * list addr :=
  (chronicle_name q, story_name q, start_time q, end_time q, []).

Definition reads_ok (q : Query) (p : Proc) : Prop :=
  reads (trace p) = [] \/ reads (trace p) = [the_call q].

(** Worlds in which the agent fails.  [initialize] that reports failure
    through the value it returns; [readArchivedStory] that throws after it
    has appended a chunk; [readArchivedStory] that appends a chunk and
    reports failure through its status. *)
Definition world_init_status : World :=
  {| ConfigurationManager := fun _ => Returns sample_conf;
     chrono_monitor_initialize := fun _ => Returns 0;
     agent_initialize := fun _ => Returns (-1);
     agent_readArchivedStory := fun _ _ _ _ _ =>
       {| delivered := []; read_status := Returns 0 |};
     agent_shutdown := fun _ => Returns 0 |}.

Definition world_read_throws : World :=
  {| ConfigurationManager := fun _ => Returns sample_conf;
     chrono_monitor_initialize := fun _ => Returns 0;
     agent_initialize := fun _ => Returns 0;
     agent_readArchivedStory := fun _ _ _ _ _ =>
       {| delivered := [chunk_A];
          read_status := Throws (foreign_exception "read failed") |};
     agent_shutdown := fun _ => Returns 0 |}.

Definition world_read_status : World :=
  {| ConfigurationManager := fun _ => Returns sample_conf;
     chrono_monitor_initialize := fun _ => Returns 0;
     agent_initialize := fun _ => Returns 0;
     agent_readArchivedStory := fun _ _ _ _ _ =>
       {| delivered := [chunk_A]; read_status := Returns (-1) |};
     agent_shutdown := fun _ => Returns 0 |}.

(** Sample command lines and the queries their flag loops produce. *)
Definition plain_args : list string := ["-c"; "conf.json"].
Definition plain_query : Query := set_conf_file "conf.json" default_query.

Definition inverted_args : list string :=
  ["-c"; "conf.json"; "-st"; "2000"; "-et"; "1000"].
Definition inverted_query : Query :=
  {| conf_file := "conf.json"; chronicle_name := "LLM";
     story_name := "conversation"; start_time := 2000; end_time := 1000 |}.

(** A world whose agent throws from [initialize]. *)
Definition world_init_throws : World :=
  {| ConfigurationManager := fun _ => Returns sample_conf;
     chrono_monitor_initialize := fun _ => Returns 0;
     agent_initialize := fun _ => Throws (foreign_exception "no archive");
     agent_readArchivedStory := fun _ _ _ _ _ =>
       {| delivered := []; read_status := Returns 0 |};
     agent_shutdown := fun _ => Returns 0 |}.

(** The trace of a run up to the end of the printing loop, when the agent
    delivered [cs] and no signal arrived: up to here every chunk has been
    handed to [delete] once, alive. *)
Definition rendered_trace (q : Query) (conf : Configuration)
    (cs : list StoryChunk) : list Event :=
  prefix_trace q conf
  ++ [EvOut (count_line (length cs))]
  ++ print_events (zip (seq 0%nat (length cs)) cs).

(** ** Vocabulary of the further properties *)

(** The arguments the flag loop reacts to. *)
Definition known_flag (a : string) : bool :=
  config_flag a || (a =? "-C")%string || (a =? "-S")%string || window_flag a.

(** Both ends of the window fit [uint64_t]. *)
Definition window_in_range (q : Query) : Prop :=
  (0 <= start_time q <= ULLONG_MAX) /\ (0 <= end_time q <= ULLONG_MAX).

(** How often the agent object is handed to [delete]. *)
Definition agent_deletes (tr : list Event) : nat :=
  length (omap (fun e => match e with EvDeleteAgent => Some tt | _ => None end) tr).

(** The number of statements the printing loop executes on chunks [cs]
    (per chunk: the header, one line per record, the [delete]), and the
    number of statements of a whole normal run that was delivered [cs]. *)
Definition render_cost (cs : list StoryChunk) : nat :=
  fold_right (fun c n => (2 + length (events c) + n)%nat) 0%nat cs.

Definition statements (cs : list StoryChunk) : nat :=
  (7 + (1 + render_cost cs + (length cs + 1 + 3)))%nat.

(** A computation is hushed when it writes nothing to standard error. *)
Definition hushed {A} (m : M A) : Prop :=
  forall p, stderr (trace (final (m p))) = stderr (trace p).

(** A world whose logger reports failure. *)
Definition world_logger_fails : World :=
  {| ConfigurationManager := fun _ => Returns sample_conf;
     chrono_monitor_initialize := fun _ => Returns 1;
     agent_initialize := fun _ => Returns 0;
     agent_readArchivedStory := fun _ _ _ _ _ =>
       {| delivered := []; read_status := Returns 0 |};
     agent_shutdown := fun _ => Returns 0 |}.

(** * Properties *)

(** ** The flag loop *)

Lemma window_flag_false a :
  window_flag a = false ->
  (a =? "-st")%string = false /\ (a =? "--start")%string = false /\
  (a =? "-et")%string = false /\ (a =? "--end")%string = false.
Proof.
  unfold window_flag. intros H.
  repeat (apply orb_false_iff in H; destruct H as [H ?]). auto.
Qed.

(** One turn of the loop when a value follows the argument. *)
Lemma flag_loop_step a v rest q :
  flag_loop (a :: v :: rest) q =
  if (a =? "-c")%string || (a =? "--config")%string then
    flag_loop rest (set_conf_file v q)
  else if (a =? "-C")%string then flag_loop rest (set_chronicle_name v q)
  else if (a =? "-S")%string then flag_loop rest (set_story_name v q)
  else if (a =? "-st")%string || (a =? "--start")%string then
    match stoull v with
    | inr n => flag_loop rest (set_start_time n q)
    | inl e => inl e
    end
  else if (a =? "-et")%string || (a =? "--end")%string then
    match stoull v with
    | inr n => flag_loop rest (set_end_time n q)
    | inl e => inl e
    end
  else flag_loop (v :: rest) q.
Proof. reflexivity. Qed.

(** An argument that is none of the flags of the loop is skipped, alone. *)
Lemma flag_loop_skip a args q :
  config_flag a = false -> (a =? "-C")%string = false ->
  (a =? "-S")%string = false -> window_flag a = false ->
  flag_loop (a :: args) q = flag_loop args q.
Proof.
  intros Hc HC HS Hw. apply window_flag_false in Hw as (H1 & H2 & H3 & H4).
  unfold config_flag in Hc. destruct args as [|v rest]; [reflexivity|].
  rewrite flag_loop_step, Hc, HC, HS, H1, H2, H3, H4. reflexivity.
Qed.

Lemma flag_loop_window_len (n : nat) :
  forall args q, (length args <= n)%nat ->
    (forall a, In a args -> window_flag a = false) ->
    exists q', flag_loop args q = inr q' /\
               start_time q' = start_time q /\ end_time q' = end_time q.
Proof.
  induction n as [|n IH]; intros args q Hlen Hno.
  - destruct args; [|simpl in Hlen; lia]. exists q. auto.
  - destruct args as [|a [|v rest]]; [exists q; auto | exists q; auto |].
    assert (Ha : window_flag a = false) by (apply Hno; simpl; auto).
    apply window_flag_false in Ha as (H1 & H2 & H3 & H4).
    assert (Hrest : forall b, In b rest -> window_flag b = false)
      by (intros b Hb; apply Hno; simpl; auto).
    assert (Hvrest : forall b, In b (v :: rest) -> window_flag b = false)
      by (intros b Hb; apply Hno; simpl; auto).
    simpl in Hlen. rewrite flag_loop_step, H1, H2, H3, H4. cbn [orb].
    destruct ((a =? "-c")%string || (a =? "--config")%string).
    { destruct (IH rest (set_conf_file v q)) as (q' & E & Hs & He);
        [lia | exact Hrest | exists q'; auto]. }
    destruct (a =? "-C")%string.
    { destruct (IH rest (set_chronicle_name v q)) as (q' & E & Hs & He);
        [lia | exact Hrest | exists q'; auto]. }
    destruct (a =? "-S")%string.
    { destruct (IH rest (set_story_name v q)) as (q' & E & Hs & He);
        [lia | exact Hrest | exists q'; auto]. }
    apply IH; [simpl; lia | exact Hvrest].
Qed.

Lemma flag_loop_conf_len (n : nat) :
  forall args q q', (length args <= n)%nat ->
    (forall a, In a args -> config_flag a = false) ->
    flag_loop args q = inr q' -> conf_file q' = conf_file q.
Proof.
  induction n as [|n IH]; intros args q q' Hlen Hno E.
  - destruct args; [|simpl in Hlen; lia]. simpl in E. congruence.
  - destruct args as [|a [|v rest]]; [simpl in E; congruence.. |].
    assert (Ha : config_flag a = false) by (apply Hno; simpl; auto).
    assert (Hrest : forall b, In b rest -> config_flag b = false)
      by (intros b Hb; apply Hno; simpl; auto).
    assert (Hvrest : forall b, In b (v :: rest) -> config_flag b = false)
      by (intros b Hb; apply Hno; simpl; auto).
    simpl in Hlen. rewrite flag_loop_step in E. unfold config_flag in Ha.
    rewrite Ha in E.
    destruct (a =? "-C")%string.
    { apply IH in E; [exact E | lia | exact Hrest]. }
    destruct (a =? "-S")%string.
    { apply IH in E; [exact E | lia | exact Hrest]. }
    destruct ((a =? "-st")%string || (a =? "--start")%string).
    { destruct (stoull v); [discriminate|].
      apply IH in E; [exact E | lia | exact Hrest]. }
    destruct ((a =? "-et")%string || (a =? "--end")%string).
    { destruct (stoull v); [discriminate|].
      apply IH in E; [exact E | lia | exact Hrest]. }
    apply IH in E; [exact E | simpl; lia | exact Hvrest].
Qed.

(** ** Loops over the collection *)

Lemma at_point_none {A} w (m : M A) p :
  pending p = None -> at_point w m p = m p.
Proof. unfold at_point. intros ->. reflexivity. Qed.

Lemma for_each_delete (l : list addr) :
  forall p, for_each l delete_chunk p
            = Val tt (set_ht (drop_all l (heap p))
                             (trace p ++ delete_events (heap p) l) p).
Proof.
  induction l as [|a l IH]; intros p.
  - destruct p. unfold set_ht. simpl. rewrite app_nil_r. reflexivity.
  - simpl. unfold bind at 1. unfold delete_chunk at 1. rewrite IH.
    unfold set_ht. simpl. rewrite <- app_assoc. reflexivity.
Qed.

Lemma for_each_delete_at_point w (l : list addr) :
  forall p, pending p = None ->
    for_each l (fun a => at_point w (delete_chunk a)) p
    = Val tt (set_ht (drop_all l (heap p))
                     (trace p ++ delete_events (heap p) l) p).
Proof.
  induction l as [|a l IH]; intros p Hp.
  - destruct p. unfold set_ht. simpl. rewrite app_nil_r. reflexivity.
  - simpl. unfold bind at 1. rewrite at_point_none by exact Hp.
    unfold delete_chunk at 1. rewrite IH by exact Hp.
    unfold set_ht. simpl. rewrite <- app_assoc. reflexivity.
Qed.

Lemma drop_all_in (l : list addr) :
  forall (h : gmap addr StoryChunk) a, a ∈ l -> drop_all l h !! a = None.
Proof.
  induction l as [|b l IH]; intros h a Ha; [inversion Ha|].
  simpl. destruct (decide (a ∈ l)) as [Hin|Hnin]; [by apply IH|].
  apply elem_of_cons in Ha as [->|Ha]; [|done].
  clear IH. revert h. induction l as [|c l IHl]; intros h; simpl.
  - apply lookup_delete_eq.
  - apply not_elem_of_cons in Hnin as [Hne Hnin].
    rewrite delete_delete. apply IHl. exact Hnin.
Qed.

Lemma drop_all_notin (l : list addr) :
  forall (h : gmap addr StoryChunk) a, a ∉ l -> drop_all l h !! a = h !! a.
Proof.
  induction l as [|b l IH]; intros h a Ha; [reflexivity|].
  apply not_elem_of_cons in Ha as [Hne Ha]. simpl.
  rewrite IH by exact Ha. by apply lookup_delete_ne.
Qed.

Lemma delete_events_live (l : list addr) :
  forall (h : gmap addr StoryChunk), NoDup l ->
    (forall a, a ∈ l -> is_Some (h !! a)) ->
    delete_events h l = map (fun a => EvDelete a true) l.
Proof.
  induction l as [|a l IH]; intros h Hnd Hl; [reflexivity|].
  apply NoDup_cons in Hnd as [Ha Hnd]. simpl. f_equal.
  - rewrite bool_decide_eq_true_2; [reflexivity|]. apply Hl. left.
  - apply IH; [exact Hnd|]. intros b Hb. rewrite lookup_delete_ne.
    + apply Hl. by right.
    + intros ->. contradiction.
Qed.

Lemma delete_events_dead (l : list addr) :
  forall (h : gmap addr StoryChunk),
    (forall a, a ∈ l -> h !! a = None) ->
    delete_events h l = map (fun a => EvDelete a false) l.
Proof.
  induction l as [|a l IH]; intros h Hl; [reflexivity|].
  simpl. f_equal.
  - rewrite bool_decide_eq_false_2; [reflexivity|].
    rewrite (Hl a) by left. intros [? ?]. discriminate.
  - apply IH. intros b Hb. destruct (decide (a = b)) as [->|Hne].
    + apply lookup_delete_eq.
    + rewrite lookup_delete_ne by exact Hne. apply Hl. by right.
Qed.

Lemma for_each_event_lines w (es : list LogEvent) :
  forall p, pending p = None ->
    for_each es (fun e => at_point w (out (event_line e))) p
    = Val tt (set_ht (heap p)
                     (trace p ++ map EvOut (map event_line es)) p).
Proof.
  induction es as [|e es IH]; intros p Hp.
  - destruct p. unfold set_ht. simpl. rewrite app_nil_r. reflexivity.
  - simpl. unfold bind at 1. rewrite at_point_none by exact Hp.
    unfold out, emit at 1. rewrite IH by exact Hp.
    unfold set_ht. simpl. rewrite <- app_assoc. reflexivity.
Qed.

(** One turn of the printing loop on a chunk that is alive: its text is
    printed and the chunk is deleted. *)
Lemma print_chunk_live w a c p :
  pending p = None -> heap p !! a = Some c ->
  print_chunk w a p
  = Val tt (set_ht (delete a (heap p))
                   (trace p ++ map EvOut (chunk_text c) ++ [EvDelete a true]) p).
Proof.
  intros Hp Ha. unfold print_chunk.
  unfold bind at 1. rewrite at_point_none by exact Hp.
  unfold bind at 1. unfold chunk_at at 1. rewrite Ha.
  unfold out, emit at 1.
  unfold bind at 1. unfold chunk_at at 1. cbn [heap]. rewrite Ha.
  unfold bind at 1. rewrite for_each_event_lines by exact Hp.
  rewrite at_point_none by exact Hp.
  unfold delete_chunk, set_ht. cbn [heap trace list_of_chunks agent_ptr
    next_addr sigint_handler pending]. rewrite Ha.
  rewrite bool_decide_eq_true_2 by eauto.
  unfold chunk_text. cbn [map]. rewrite <- !app_assoc. reflexivity.
Qed.

Lemma for_each_print_chunk w (lc : list (addr * StoryChunk)) :
  forall p, pending p = None -> NoDup (map fst lc) ->
    (forall a c, (a, c) ∈ lc -> heap p !! a = Some c) ->
    for_each (map fst lc) (print_chunk w) p
    = Val tt (set_ht (drop_all (map fst lc) (heap p))
                     (trace p ++ print_events lc) p).
Proof.
  induction lc as [|[a c] lc IH]; intros p Hp Hnd Hl.
  - destruct p. unfold set_ht. simpl. rewrite app_nil_r. reflexivity.
  - cbn [map fst] in *. apply NoDup_cons in Hnd as [Ha Hnd].
    cbn [for_each]. unfold bind at 1.
    rewrite (print_chunk_live w a c) by (auto; apply Hl; left).
    rewrite IH; [| exact Hp | exact Hnd |].
    + unfold set_ht, print_events. cbn [heap trace list_of_chunks agent_ptr
        next_addr sigint_handler pending flat_map drop_all fst snd].
      rewrite <- !app_assoc. reflexivity.
    + intros b d Hb. cbn [heap set_ht]. rewrite lookup_delete_ne.
      * apply Hl. by right.
      * intros ->. apply Ha. apply list_elem_of_fmap. by exists (b, d).
Qed.

Lemma store_chunks_lookup (cs : list StoryChunk) :
  forall n (h : gmap addr StoryChunk) i c,
    cs !! i = Some c -> store_chunks n cs h !! (n + i)%nat = Some c.
Proof.
  induction cs as [|c0 cs IH]; intros n h i c Hi; [discriminate|].
  destruct i as [|i]; simpl in *.
  - rewrite Nat.add_0_r. injection Hi as ->. apply lookup_insert_eq.
  - rewrite lookup_insert_ne by lia.
    replace (n + S i)%nat with (S n + i)%nat by lia. by apply IH.
Qed.

Lemma store_chunks_zip n (cs : list StoryChunk) (h : gmap addr StoryChunk) a c :
  (a, c) ∈ zip (seq n (length cs)) cs -> store_chunks n cs h !! a = Some c.
Proof.
  intros H. apply list_elem_of_lookup in H as [i Hi].
  apply lookup_zip_with_Some in Hi as (x & y & E & Hx & Hy).
  injection E as -> ->. apply lookup_seq in Hx as [-> _].
  by apply store_chunks_lookup.
Qed.

Lemma fst_zip_seq n (cs : list StoryChunk) :
  map fst (zip (seq n (length cs)) cs) = seq n (length cs).
Proof. apply fst_zip. rewrite length_seq. lia. Qed.

Lemma snd_zip_seq n (cs : list StoryChunk) :
  map snd (zip (seq n (length cs)) cs) = cs.
Proof. apply snd_zip. rewrite length_seq. lia. Qed.

(** ** Reading traces *)

Lemma deleted_app t1 t2 : deleted (t1 ++ t2) = deleted t1 ++ deleted t2.
Proof. apply omap_app. Qed.
Lemma double_freed_app t1 t2 :
  double_freed (t1 ++ t2) = double_freed t1 ++ double_freed t2.
Proof. apply omap_app. Qed.
Lemma stdout_app t1 t2 : stdout (t1 ++ t2) = stdout t1 ++ stdout t2.
Proof. apply omap_app. Qed.
Lemma reads_app t1 t2 : reads (t1 ++ t2) = reads t1 ++ reads t2.
Proof. apply omap_app. Qed.

Lemma stdout_outs (ss : list string) : stdout (map EvOut ss) = ss.
Proof. induction ss as [|s ss IH]; [reflexivity|]. cbn. by f_equal. Qed.
Lemma deleted_outs (ss : list string) : deleted (map EvOut ss) = [].
Proof. induction ss as [|s ss IH]; [reflexivity|]. exact IH. Qed.
Lemma double_freed_outs (ss : list string) : double_freed (map EvOut ss) = [].
Proof. induction ss as [|s ss IH]; [reflexivity|]. exact IH. Qed.
Lemma reads_outs (ss : list string) : reads (map EvOut ss) = [].
Proof. induction ss as [|s ss IH]; [reflexivity|]. exact IH. Qed.

Lemma deleted_deletes b (l : list addr) :
  deleted (map (fun a => EvDelete a b) l) = l.
Proof. induction l as [|a l IH]; [reflexivity|]. cbn. by f_equal. Qed.
Lemma stdout_deletes b (l : list addr) :
  stdout (map (fun a => EvDelete a b) l) = [].
Proof. induction l as [|a l IH]; [reflexivity|]. exact IH. Qed.
Lemma reads_deletes b (l : list addr) :
  reads (map (fun a => EvDelete a b) l) = [].
Proof. induction l as [|a l IH]; [reflexivity|]. exact IH. Qed.
Lemma double_freed_dead (l : list addr) :
  double_freed (map (fun a => EvDelete a false) l) = l.
Proof. induction l as [|a l IH]; [reflexivity|]. cbn. by f_equal. Qed.
Lemma double_freed_live (l : list addr) :
  double_freed (map (fun a => EvDelete a true) l) = [].
Proof. induction l as [|a l IH]; [reflexivity|]. exact IH. Qed.

Lemma shutdowns_app t1 t2 : shutdowns (t1 ++ t2) = (shutdowns t1 + shutdowns t2)%nat.
Proof. unfold shutdowns. by rewrite omap_app, length_app. Qed.

Lemma deleted_print_events lc : deleted (print_events lc) = map fst lc.
Proof.
  induction lc as [|[a c] lc IH]; [reflexivity|].
  unfold print_events in *. cbn [flat_map fst snd].
  rewrite !deleted_app, deleted_outs, IH. reflexivity.
Qed.
Lemma double_freed_print_events lc : double_freed (print_events lc) = [].
Proof.
  induction lc as [|[a c] lc IH]; [reflexivity|].
  unfold print_events in *. cbn [flat_map fst snd].
  rewrite !double_freed_app, double_freed_outs, IH. reflexivity.
Qed.
Lemma reads_print_events lc : reads (print_events lc) = [].
Proof.
  induction lc as [|[a c] lc IH]; [reflexivity|].
  unfold print_events in *. cbn [flat_map fst snd].
  rewrite !reads_app, reads_outs, IH. reflexivity.
Qed.
(** What the printing loop writes is the rendering of the chunks. *)
Lemma stdout_print_events lc : stdout (print_events lc) = rendering (map snd lc).
Proof.
  induction lc as [|[a c] lc IH]; [reflexivity|].
  unfold print_events, rendering in *. cbn [flat_map map fst snd].
  rewrite !stdout_app, stdout_outs, IH. cbn. by rewrite app_nil_r.
Qed.


Lemma count_occ_twice (l : list addr) a :
  NoDup l -> a ∈ l -> count_occ Nat.eq_dec (l ++ l) a = 2%nat.
Proof.
  intros Hnd Ha. rewrite count_occ_app.
  apply NoDup_ListNoDup in Hnd. apply list_elem_of_In in Ha.
  pose proof (proj1 (NoDup_count_occ' Nat.eq_dec l) Hnd a Ha) as E.
  unfold addr in *. lia.
Qed.

(** ** The run up to the read *)

Section Prefix.

Variable w : World.
Variables (q : Query) (conf : Configuration) (r s0 : Z).
Hypothesis Hconf : ConfigurationManager w (conf_file q) = Returns conf.
Hypothesis Hlog : chrono_monitor_initialize w (CLIENT_LOG_CONF conf) = Returns r.
Hypothesis Hr : r <> 1.
Hypothesis Hinit : agent_initialize w (story_files_dir conf) = Returns s0.

(** With the configuration loaded, the logger up and [initialize] back,
    [main] gets to [readArchivedStory] whatever the query says; a signal
    that is due later than that is still due afterwards. *)
Lemma query_body_reaches_read (sig : option nat) :
  query_body w q (init_proc (later 7 sig))
  = match read_status (the_read w q conf) with
    | Returns _ =>
        (render w ;; release w ;; shutdown_agent w ;; ret 0)
          (after_read q conf (delivered (the_read w q conf)) sig)
    | Throws e =>
        Halt (Terminated e)
          (after_read q conf (delivered (the_read w q conf)) sig)
    end.
Proof.
  unfold query_body, the_read, read_story, the_agent, get_list, out.
  rewrite Hconf.
  destruct sig as [k|];
    unfold bind, at_point, call, emit, ret, init_proc, later, set_handler,
      set_agent, with_pending;
    cbn -[render release shutdown_agent Z.eqb]; rewrite Hlog;
    rewrite (proj2 (Z.eqb_neq r 1) Hr);
    cbn -[render release shutdown_agent]; rewrite Hinit;
    cbn -[render release shutdown_agent];
    destruct (read_status _); reflexivity.
Qed.

End Prefix.

(** ** Rendering, release and shutdown without a signal *)

Lemma render_chunks_live w (lc : list (addr * StoryChunk)) p :
  pending p = None -> list_of_chunks p = map fst lc -> NoDup (map fst lc) ->
  (forall a c, (a, c) ∈ lc -> heap p !! a = Some c) ->
  render_chunks w p
  = Val tt (set_ht (drop_all (map fst lc) (heap p))
                   (trace p ++ print_events lc) p).
Proof.
  intros Hp Hl Hnd Hlive. unfold render_chunks, bind, get_list.
  rewrite Hl. by apply for_each_print_chunk.
Qed.

Lemma render_live w (lc : list (addr * StoryChunk)) p :
  pending p = None -> list_of_chunks p = map fst lc -> NoDup (map fst lc) ->
  (forall a c, (a, c) ∈ lc -> heap p !! a = Some c) ->
  render w p
  = Val tt (set_ht (drop_all (map fst lc) (heap p))
                   (trace p ++ EvOut (count_line (length lc))
                            :: print_events lc) p).
Proof.
  intros Hp Hl Hnd Hlive. unfold render. unfold bind at 1.
  rewrite at_point_none by exact Hp.
  unfold bind at 1, get_list at 1, out, emit.
  rewrite (render_chunks_live w lc) by (cbn; auto).
  unfold set_ht. cbn. rewrite Hl, length_map, <- app_assoc. reflexivity.
Qed.

Lemma release_spec w p :
  pending p = None ->
  release w p
  = Val tt {| list_of_chunks := []; agent_ptr := agent_ptr p;
              heap := drop_all (list_of_chunks p) (heap p);
              next_addr := next_addr p;
              sigint_handler := sigint_handler p; pending := None;
              trace := trace p ++ delete_events (heap p) (list_of_chunks p)
                               ++ [EvClear] |}.
Proof.
  intros Hp. unfold release, bind, get_list.
  rewrite for_each_delete_at_point by exact Hp.
  rewrite at_point_none by (cbn; exact Hp).
  unfold emit, set_list, set_ht. cbn. rewrite Hp, <- app_assoc. reflexivity.
Qed.

Lemma shutdown_agent_spec w p h s :
  pending p = None -> agent_ptr p = Some h -> agent_shutdown w h = Returns s ->
  shutdown_agent w p
  = Val tt {| list_of_chunks := list_of_chunks p; agent_ptr := None;
              heap := heap p; next_addr := next_addr p;
              sigint_handler := sigint_handler p; pending := None;
              trace := trace p ++ [EvShutdown; EvDeleteAgent] |}.
Proof.
  intros Hp Hh Hs. unfold shutdown_agent, bind, at_point, the_agent.
  rewrite Hp, Hh. unfold emit, call, set_agent, ret.
  repeat (cbn; rewrite ?Hs, ?Hp). rewrite <- app_assoc. reflexivity.
Qed.

(** ** The normal run *)

Section Normal.

Variable w : World.
Variables (q : Query) (conf : Configuration) (r s0 s1 s2 : Z).
Hypothesis Hconf : ConfigurationManager w (conf_file q) = Returns conf.
Hypothesis Hlog : chrono_monitor_initialize w (CLIENT_LOG_CONF conf) = Returns r.
Hypothesis Hr : r <> 1.
Hypothesis Hinit : agent_initialize w (story_files_dir conf) = Returns s0.
Hypothesis Hread : read_status (the_read w q conf) = Returns s1.
Hypothesis Hshut : agent_shutdown w (story_files_dir conf) = Returns s2.

Lemma query_body_normal :
  query_body w q (init_proc None)
  = Val 0 (after_normal q conf (delivered (the_read w q conf))).
Proof.
  change (init_proc None) with (init_proc (later 7 None)).
  rewrite (query_body_reaches_read w q conf r s0 Hconf Hlog Hr Hinit None).
  rewrite Hread. set (cs := delivered (the_read w q conf)).
  unfold bind at 1.
  rewrite (render_live w (zip (seq 0%nat (length cs)) cs));
    [| reflexivity | cbn; by rewrite fst_zip_seq
     | rewrite fst_zip_seq; apply NoDup_seq
     | intros a c; apply store_chunks_zip ].
  unfold bind at 1. rewrite release_spec by reflexivity.
  unfold bind at 1.
  rewrite (shutdown_agent_spec w _ (story_files_dir conf) s2);
    [| reflexivity | reflexivity | exact Hshut ].
  unfold ret, after_normal, normal_trace, set_ht, after_read.
  cbn [list_of_chunks agent_ptr heap next_addr sigint_handler pending trace].
  rewrite fst_zip_seq, length_zip_with_l_eq by (by rewrite length_seq).
  rewrite length_seq.
  rewrite (delete_events_dead (seq 0%nat (length cs))).
  - rewrite <- !app_assoc. reflexivity.
  - intros a Ha. by apply drop_all_in.
Qed.

End Normal.

(** ** Statements that leave the collection and the archive alone *)

Lemma calm_ret {A} (a : A) : calm (ret a).
Proof. intros p. reflexivity. Qed.

Lemma calm_halt {A} st : st <> Exited 0 -> calm (@halt A st).
Proof. intros H p. split; [reflexivity | exact H]. Qed.

Lemma calm_call {A} (o : Outcome A) : calm (call o).
Proof. destruct o; [apply calm_ret | apply calm_halt; discriminate]. Qed.

Lemma calm_bind {A B} (m : M A) (k : A -> M B) :
  calm m -> (forall a, calm (k a)) -> calm (bind m k).
Proof.
  intros Hm Hk p. unfold bind. specialize (Hm p).
  destruct (m p) as [a p1|st p1]; [|exact Hm].
  specialize (Hk a p1). destruct (k a p1) as [b p2|st p2].
  - congruence.
  - destruct Hk as [Hk ?]. split; congruence.
Qed.

Lemma calm_for_each {A} (l : list A) (body : A -> M unit) :
  (forall x, calm (body x)) -> calm (for_each l body).
Proof.
  intros Hb. induction l as [|x l IH]; simpl.
  - apply calm_ret.
  - apply calm_bind; [apply Hb | intros _; exact IH].
Qed.

Lemma calm_emit e : reads [e] = [] -> calm (emit e).
Proof.
  intros He p. unfold emit, obs. cbn. rewrite reads_app, He, app_nil_r.
  reflexivity.
Qed.

Lemma calm_delete_chunk a : calm (delete_chunk a).
Proof.
  intros p. unfold delete_chunk, obs. cbn. rewrite reads_app.
  cbn. rewrite app_nil_r. reflexivity.
Qed.

Lemma calm_set_agent a : calm (set_agent a).
Proof. intros p. reflexivity. Qed.
Lemma calm_set_handler : calm set_handler.
Proof. intros p. reflexivity. Qed.
Lemma calm_get_list : calm get_list.
Proof. intros p. reflexivity. Qed.
Lemma calm_get_agent : calm get_agent.
Proof. intros p. reflexivity. Qed.
Lemma calm_chunk_at a : calm (chunk_at a).
Proof.
  intros p. unfold chunk_at. destruct (heap p !! a); [reflexivity|].
  split; [reflexivity | discriminate].
Qed.
Lemma calm_the_agent : calm the_agent.
Proof.
  intros p. unfold the_agent. destruct (agent_ptr p); [reflexivity|].
  split; [reflexivity | discriminate].
Qed.

Create HintDb calm.
#[local] Hint Resolve calm_ret calm_call calm_delete_chunk calm_set_agent
  calm_set_handler calm_get_list calm_get_agent calm_chunk_at calm_the_agent
  : calm.

Ltac calm_tac :=
  repeat first
    [ apply calm_bind; [| intros ?]
    | apply calm_for_each; intros ?
    | apply calm_emit; reflexivity
    | apply calm_halt; discriminate
    | solve [auto with calm] ].

Lemma calm_signalHandler {A} w sig : sig <> 0 -> calm (@signalHandler w A sig).
Proof.
  intros Hsig. unfold signalHandler, out, exit. calm_tac.
  - match goal with |- calm (match ?x with _ => _ end) => destruct x end;
      calm_tac.
  - apply calm_halt. congruence.
Qed.

Lemma calm_deliver {A} w : calm (@deliver w A SIGINT).
Proof.
  intros p. unfold deliver. destruct (sigint_handler p).
  - apply calm_signalHandler. discriminate.
  - split; [reflexivity | discriminate].
Qed.

Lemma calm_at_point {A} w (m : M A) : calm m -> calm (at_point w m).
Proof.
  intros Hm p. unfold at_point. destruct (pending p) as [[|n]|].
  - pose proof (@calm_deliver A w (with_pending None p)) as H.
    destruct (deliver w SIGINT (with_pending None p)); exact H.
  - pose proof (Hm (with_pending (Some n) p)) as H.
    destruct (m (with_pending (Some n) p)); exact H.
  - apply Hm.
Qed.

Ltac calm_stmt :=
  repeat first
    [ apply calm_at_point
    | apply calm_bind; [| intros ?]
    | apply calm_for_each; intros ?
    | apply calm_emit; reflexivity
    | apply calm_halt; discriminate
    | solve [auto with calm] ].

Lemma calm_print_chunk w a : calm (print_chunk w a).
Proof. unfold print_chunk, out. calm_stmt. Qed.

Lemma calm_render w : calm (render w).
Proof. unfold render, render_chunks, print_chunk, out. calm_stmt. Qed.

Lemma calm_shutdown_agent w : calm (shutdown_agent w).
Proof. unfold shutdown_agent. calm_stmt. Qed.

(** ** The handler *)


(** The handler never returns to the interrupted code. *)
Lemma signalHandler_halts {A} w sig p :
  exists st p', @signalHandler w A sig p = Halt st p'.
Proof.
  unfold signalHandler, out. unfold bind at 1. unfold emit at 1.
  unfold bind at 1, get_list at 1. unfold bind at 1.
  rewrite for_each_delete. unfold bind at 1, get_agent at 1.
  cbn [agent_ptr set_ht]. destruct (agent_ptr p) as [h|].
  - unfold bind, emit, call, exit, halt, ret. cbn.
    destruct (agent_shutdown w h); eauto.
  - unfold bind, exit, halt, ret. eauto.
Qed.

(** What the handler adds to the trace starts with the interrupt line and
    the [delete]s of the listed pointers, whatever the agent does next. *)
Lemma signalHandler_trace {A} w sig p :
  exists st p' t,
    @signalHandler w A sig p = Halt st p' /\
    trace p' = trace p ++ EvOut (interrupt_line sig)
                       :: delete_events (heap p) (list_of_chunks p) ++ t.
Proof.
  unfold signalHandler, out. unfold bind at 1. unfold emit at 1.
  unfold bind at 1, get_list at 1. unfold bind at 1.
  rewrite for_each_delete. unfold bind at 1, get_agent at 1.
  cbn [agent_ptr set_ht list_of_chunks heap trace].
  destruct (agent_ptr p) as [h|].
  - unfold bind, emit, call, exit, halt, ret. cbn.
    destruct (agent_shutdown w h); cbn; eexists _, _, _;
      (split; [reflexivity|]); cbn; rewrite <- !app_assoc; reflexivity.
  - unfold bind, exit, halt, ret. exists (Exited sig). eexists _, [].
    split; [reflexivity|]. cbn. rewrite <- !app_assoc, app_nil_r. reflexivity.
Qed.

Lemma deliver_halts {A} w sig p :
  exists st p', @deliver w A sig p = Halt st p'.
Proof.
  unfold deliver. destruct (sigint_handler p);
    [apply signalHandler_halts | eauto].
Qed.

(** ** Any run: any collaborators, a signal at any statement *)

Lemma release_empties w p :
  match release w p with
  | Val _ p' => list_of_chunks p' = [] /\ reads (trace p') = reads (trace p)
  | Halt st p' => obs p' = obs p /\ st <> Exited 0
  end.
Proof.
  unfold release, bind, get_list.
  pose proof (calm_for_each (list_of_chunks p)
                (fun a => at_point w (delete_chunk a))
                (fun a => calm_at_point w _ (calm_delete_chunk a)) p) as H.
  destruct (for_each _ _ p) as [[] p1|st p1]; [|exact H].
  unfold at_point. destruct (pending p1) as [[|n]|].
  - pose proof (@calm_deliver unit w (with_pending None p1)) as H1.
    destruct (@deliver_halts unit w SIGINT (with_pending None p1))
      as (st & p2 & E).
    rewrite E in *. destruct H1 as [H1 ?]. split; [|assumption].
    rewrite H1. exact H.
  - injection H as _ H. cbn. rewrite reads_app, app_nil_r. auto.
  - injection H as _ H. cbn. rewrite reads_app, app_nil_r. auto.
Qed.

(** The statement that calls [readArchivedStory], entered with an empty
    collection and no read made yet. *)
Lemma read_statement w q p :
  obs p = ([], []) ->
  match at_point w (_ <~ read_story w q ;; ret tt) p with
  | Val _ p' => reads (trace p') = [the_call q]
  | Halt st p' => st <> Exited 0 /\ reads_ok q p'
  end.
Proof.
  intros Hp. unfold at_point. destruct (pending p) as [[|n]|].
  - pose proof (@calm_deliver unit w (with_pending None p)) as H1.
    destruct (@deliver_halts unit w SIGINT (with_pending None p))
      as (st & p2 & E).
    rewrite E in *. destruct H1 as [H1 ?]. split; [assumption|]. left.
    change (snd (obs p2) = []). rewrite H1. cbn. by injection Hp.
  - injection Hp as Hl Hr.
    unfold read_story, bind, the_agent, get_list, emit. cbn.
    destruct (agent_ptr p) as [h|]; cbn.
    + rewrite Hl. destruct (read_status _); cbn.
      * rewrite reads_app, Hr. reflexivity.
      * split; [discriminate|]. right. cbn. rewrite reads_app, Hr. reflexivity.
    + split; [discriminate|]. left. exact Hr.
  - injection Hp as Hl Hr.
    unfold read_story, bind, the_agent, get_list, emit. cbn.
    destruct (agent_ptr p) as [h|]; cbn.
    + rewrite Hl. destruct (read_status _); cbn.
      * rewrite reads_app, Hr. reflexivity.
      * split; [discriminate|]. right. cbn. rewrite reads_app, Hr. reflexivity.
    + split; [discriminate|]. left. exact Hr.
Qed.

Lemma reads_ok_of_obs q p p' :
  obs p = ([], []) -> obs p' = obs p -> reads_ok q p'.
Proof.
  intros Hp H. left. change (snd (obs p') = []). by rewrite H, Hp.
Qed.

Ltac calm_step :=
  unfold bind at 1;
  match goal with
  | |- context [at_point ?w ?m ?p] =>
      let Hc := fresh "Hc" in
      assert (Hc : calm (at_point w m)) by calm_stmt;
      specialize (Hc p);
      destruct (at_point w m p) as [? ?|? ?]; cbv beta iota;
      [ | destruct Hc; split; [assumption | eapply reads_ok_of_obs; eassumption] ]
  end.

(** Whatever the collaborators do and whenever the signal arrives, the
    body of [main] reads the archive at most once, into an empty
    collection, and can only return 0 with the collection emptied. *)
Lemma query_body_safe w q p :
  obs p = ([], []) ->
  match query_body w q p with
  | Val code p' => reads_ok q p' /\ (code = 0 -> list_of_chunks p' = [])
  | Halt st p' => st <> Exited 0 /\ reads_ok q p'
  end.
Proof.
  intros Hp. unfold query_body.
  calm_step. rewrite <- Hc in Hp. clear Hc.
  calm_step. rewrite <- Hc in Hp. clear Hc.
  destruct (_ =? 1).
  { split; [eapply reads_ok_of_obs; eauto | discriminate]. }
  calm_step. rewrite <- Hc in Hp. clear Hc.
  calm_step. rewrite <- Hc in Hp. clear Hc.
  calm_step. rewrite <- Hc in Hp. clear Hc.
  calm_step. rewrite <- Hc in Hp. clear Hc.
  unfold bind at 1.
  match goal with
  | |- context [at_point w ?m ?pz] =>
      pose proof (read_statement w q pz Hp) as Hr;
      destruct (at_point w m pz) as [? pA|? pA]; cbv beta iota;
      [ | exact Hr ]
  end.
  unfold bind at 1. pose proof (calm_render w pA) as Hc.
  destruct (render w pA) as [? pB|? pB]; cbv beta iota.
  2:{ destruct Hc as [Hc ?]. split; [assumption|]. right.
      change (snd (obs pB) = [the_call q]). rewrite Hc. exact Hr. }
  assert (Hr2 : reads (trace pB) = [the_call q]).
  { change (snd (obs pB) = [the_call q]). rewrite Hc. exact Hr. }
  clear Hc. unfold bind at 1. pose proof (release_empties w pB) as Hc.
  destruct (release w pB) as [? pC|? pC]; cbv beta iota.
  2:{ destruct Hc as [Hc ?]. split; [assumption|]. right.
      change (snd (obs pC) = [the_call q]). rewrite Hc. exact Hr2. }
  destruct Hc as [Hl Hr3]. rewrite Hr2 in Hr3.
  unfold bind at 1. pose proof (calm_shutdown_agent w pC) as Hc.
  destruct (shutdown_agent w pC) as [? pD|? pD]; cbv beta iota.
  2:{ destruct Hc as [Hc ?]. split; [assumption|]. right.
      change (snd (obs pD) = [the_call q]). rewrite Hc. exact Hr3. }
  unfold ret. split.
  - right. change (snd (obs pD) = [the_call q]). rewrite Hc. exact Hr3.
  - intros _. change (fst (obs pD) = []). rewrite Hc. exact Hl.
Qed.

Lemma main_with_config w argv0 args q :
  flag_loop args default_query = inr q -> conf_file q <> "" ->
  main w argv0 args = query_body w q.
Proof.
  intros Hq Hc. unfold main. rewrite Hq.
  apply String.eqb_neq in Hc. rewrite Hc. reflexivity.
Qed.

Lemma main_without_config w argv0 args q :
  flag_loop args default_query = inr q -> conf_file q = "" ->
  main w argv0 args = (at_point w (err (usage argv0)) ;; ret EXIT_FAILURE).
Proof. intros Hq Hc. unfold main. rewrite Hq, Hc. reflexivity. Qed.

Lemma main_bad_flags w argv0 args e :
  flag_loop args default_query = inl e ->
  main w argv0 args = halt (Terminated e).
Proof. intros Hq. unfold main. rewrite Hq. reflexivity. Qed.

Lemma suffix_keeps_reads w p :
  reads (trace (final ((render w ;; release w ;; shutdown_agent w ;; ret 0) p)))
  = reads (trace p).
Proof.
  unfold bind at 1. pose proof (calm_render w p) as Hc.
  destruct (render w p) as [? pA|? pA]; cbn [final].
  2:{ destruct Hc as [Hc _]. change (snd (obs pA) = snd (obs p)). by rewrite Hc. }
  assert (HA : reads (trace pA) = reads (trace p)).
  { change (snd (obs pA) = snd (obs p)). by rewrite Hc. }
  rewrite <- HA. clear Hc HA.
  unfold bind at 1. pose proof (release_empties w pA) as Hc.
  destruct (release w pA) as [? pB|? pB]; cbn [final].
  2:{ destruct Hc as [Hc _]. change (snd (obs pB) = snd (obs pA)). by rewrite Hc. }
  destruct Hc as [_ HB]. rewrite <- HB. clear HB.
  unfold bind at 1. pose proof (calm_shutdown_agent w pB) as Hc.
  destruct (shutdown_agent w pB) as [? pC|? pC]; cbn [final ret].
  - change (snd (obs pC) = snd (obs pB)). by rewrite Hc.
  - destruct Hc as [Hc _]. change (snd (obs pC) = snd (obs pB)). by rewrite Hc.
Qed.


(** * The claims *)

(** ** Claims on the flag loop and the missing configuration *)

(** C10.  The usage text advertises [-s startTime] and [-e endTime], yet
    the loop skips the arguments [-s] and [-e] like any unknown one, and on
    an argument vector in which none of [-st], [--start], [-et], [--end]
    occurs it completes with the start and end it was entered with: for
    [main], the defaults. *)
Theorem flag_loop_ignores_short_window_flags
    (argv0 : string) (args : list string) (q : Query)
    (Hnone : forall a, In a args -> window_flag a = false) :
  usage argv0 = ("Usage: " ++ argv0 ++ " -c <config.json> [-C chronicle]"
                 ++ " [-S story] [-s startTime] [-e endTime]" ++ nl)%string /\
  window_flag "-s" = false /\ window_flag "-e" = false /\
  flag_loop ("-s" :: args) q = flag_loop args q /\
  flag_loop ("-e" :: args) q = flag_loop args q /\
  exists q', flag_loop args q = inr q' /\
             start_time q' = start_time q /\ end_time q' = end_time q.
Proof.
  split; [reflexivity|]. split; [reflexivity|]. split; [reflexivity|].
  split; [by apply flag_loop_skip|]. split; [by apply flag_loop_skip|].
  by apply (flag_loop_window_len (length args)).
Qed.

Lemma flag_loop_ignores_short_window_flags_witness :
  (forall a, In a ["-c"; "conf.json"; "-s"; "5"; "-e"; "9"] ->
             window_flag a = false) /\
  exists q',
    flag_loop ["-c"; "conf.json"; "-s"; "5"; "-e"; "9"] default_query = inr q' /\
    start_time q' = 1736800000000000000 /\ end_time q' = 1746539189396295796.
Proof.
  assert (H : forall a, In a ["-c"; "conf.json"; "-s"; "5"; "-e"; "9"] ->
                        window_flag a = false).
  { intros a Ha. simpl in Ha.
    repeat (destruct Ha as [<-|Ha]; [reflexivity|]). destruct Ha. }
  split; [exact H|].
  exact (proj2 (proj2 (proj2 (proj2 (proj2
    (flag_loop_ignores_short_window_flags "reader" _ default_query H)))))).
Defined.

Lemma no_config_flag_no_file args q :
  (forall a, In a args -> config_flag a = false) ->
  flag_loop args default_query = inr q -> conf_file q = "".
Proof.
  intros Hno Hq. by apply (flag_loop_conf_len (length args) args _ _ (le_n _) Hno) in Hq.
Qed.

(** C5, as amended.  No configuration source is supplied when the flag
    loop leaves [conf_file] empty, which is what line 48 tests: no
    [-c]/[--config] at all, one in last position, one whose value is
    empty, one eaten as the value of another flag.  Then, and also when
    the loop does not complete, the process ends with a non-zero status
    without opening an agent, reading the archive or allocating a chunk,
    whatever the collaborators would do and whenever a signal arrives; when
    the loop completes and no signal arrives, the usage text goes to
    standard error, nothing else happens, and [main] returns
    [EXIT_FAILURE]. *)
Theorem no_config_no_backend
    (w : World) (argv0 : string) (args : list string) (sig : option nat)
    (Hnone : forall q, flag_loop args default_query = inr q ->
                       conf_file q = "") :
  nonzero (fst (run w argv0 args sig)) /\
  agents_opened (trace (snd (run w argv0 args sig))) = 0%nat /\
  reads (trace (snd (run w argv0 args sig))) = [] /\
  next_addr (snd (run w argv0 args sig)) = 0%nat /\
  heap (snd (run w argv0 args sig)) = ∅ /\
  (forall q, flag_loop args default_query = inr q -> sig = None ->
     fst (run w argv0 args sig) = Exited EXIT_FAILURE /\
     trace (snd (run w argv0 args sig)) = [EvErr (usage argv0)]).
Proof.
  unfold run. destruct (flag_loop args default_query) as [e|q] eqn:Hq.
  - rewrite (main_bad_flags w argv0 args e Hq). cbn.
    repeat split; try discriminate.
  - rewrite (main_without_config w argv0 args q Hq (Hnone q eq_refl)).
    destruct sig as [[|n]|]; cbn; repeat split; try discriminate;
      intros; congruence.
Qed.

Lemma no_config_no_backend_witness :
  (forall q, flag_loop ["-S"; "-c"; "conf.json"] default_query = inr q ->
             conf_file q = "") /\
  fst (run (world_of [chunk_A]) "reader" ["-S"; "-c"; "conf.json"] None)
  = Exited EXIT_FAILURE /\
  trace (snd (run (world_of [chunk_A]) "reader" ["-S"; "-c"; "conf.json"] None))
  = [EvErr (usage "reader")].
Proof.
  assert (H : forall q, flag_loop ["-S"; "-c"; "conf.json"] default_query = inr q
                        -> conf_file q = "").
  { intros q Hq. injection Hq as <-. reflexivity. }
  split; [exact H|].
  exact (proj2 (proj2 (proj2 (proj2 (proj2
    (no_config_no_backend (world_of [chunk_A]) "reader" _ None H)))))
    _ eq_refl eq_refl).
Defined.

(** C5, as stated, fails: with no configuration source and a start value
    that is not a number, [std::stoull] throws inside the flag loop and
    the process is terminated before the usage text is written. *)
Lemma no_config_counterexample :
  (forall a, In a ["-st"; "abc"] -> config_flag a = false) /\
  fst (run (world_of []) "reader" ["-st"; "abc"] None)
  = Terminated (invalid_argument "stoull") /\
  stderr (trace (snd (run (world_of []) "reader" ["-st"; "abc"] None))) = [].
Proof.
  split; [|split; reflexivity].
  intros a Ha. simpl in Ha.
  repeat (destruct Ha as [<-|Ha]; [reflexivity|]). destruct Ha.
Qed.

(** ** Claims on the query *)

Section Run.

Variable w : World.
Variables (argv0 : string) (args : list string) (q : Query).
Hypothesis Hflags : flag_loop args default_query = inr q.
Hypothesis Hfile : conf_file q <> "".

Section Ready.

Variables (conf : Configuration) (r : Z).
Hypothesis Hconf : ConfigurationManager w (conf_file q) = Returns conf.
Hypothesis Hlog : chrono_monitor_initialize w (CLIENT_LOG_CONF conf) = Returns r.
Hypothesis Hr : r <> 1.

Section Initialized.

Variable s0 : Z.
Hypothesis Hinit : agent_initialize w (story_files_dir conf) = Returns s0.

Lemma run_reaches_read (sig : option nat) :
  run w argv0 args (later 7 sig)
  = match read_status (the_read w q conf) with
    | Returns _ =>
        match (render w ;; release w ;; shutdown_agent w ;; ret 0)
                (after_read q conf (delivered (the_read w q conf)) sig) with
        | Val code p => (Exited code, p)
        | Halt st p => (st, p)
        end
    | Throws e =>
        (Terminated e, after_read q conf (delivered (the_read w q conf)) sig)
    end.
Proof.
  unfold run. rewrite (main_with_config w argv0 args q Hflags Hfile).
  rewrite (query_body_reaches_read w q conf r s0 Hconf Hlog Hr Hinit sig).
  destruct (read_status _); reflexivity.
Qed.

(** Once [initialize] has returned, whatever it returned, the archive is
    read: once, with the names and the window of the query. *)
Lemma read_invoked :
  reads (trace (snd (run w argv0 args None))) = [the_call q].
Proof.
  change (@None nat) with (later 7 None). rewrite run_reaches_read.
  destruct (read_status _) as [s|e]; [|reflexivity].
  pose proof (suffix_keeps_reads w
    (after_read q conf (delivered (the_read w q conf)) None)) as H.
  destruct ((render w ;; release w ;; shutdown_agent w ;; ret 0) _);
    exact H.
Qed.

Lemma run_read_throws e :
  read_status (the_read w q conf) = Throws e ->
  run w argv0 args None
  = (Terminated e, after_read q conf (delivered (the_read w q conf)) None).
Proof.
  intros He. change (@None nat) with (later 7 None).
  rewrite run_reaches_read, He. reflexivity.
Qed.

Lemma run_normal s1 s2 :
  read_status (the_read w q conf) = Returns s1 ->
  agent_shutdown w (story_files_dir conf) = Returns s2 ->
  run w argv0 args None
  = (Exited 0, after_normal q conf (delivered (the_read w q conf))).
Proof.
  intros Hread Hshut. unfold run.
  rewrite (main_with_config w argv0 args q Hflags Hfile).
  rewrite (query_body_normal w q conf r s0 s1 s2); auto.
Qed.

(** As soon as [readArchivedStory] has returned, what it delivered is
    rendered; the clean-up loop and the call of [shutdown] follow. *)
Lemma run_rendered s1 :
  read_status (the_read w q conf) = Returns s1 ->
  exists t,
    trace (snd (run w argv0 args None))
    = rendered_trace q conf (delivered (the_read w q conf))
      ++ map (fun a => EvDelete a false)
             (seq 0%nat (length (delivered (the_read w q conf))))
      ++ EvClear :: EvShutdown :: t.
Proof.
  intros Hread. change (@None nat) with (later 7 None).
  rewrite run_reaches_read, Hread.
  set (cs := delivered (the_read w q conf)).
  unfold bind at 1.
  rewrite (render_live w (zip (seq 0%nat (length cs)) cs));
    [| reflexivity | cbn; by rewrite fst_zip_seq
     | rewrite fst_zip_seq; apply NoDup_seq
     | intros a c; apply store_chunks_zip ].
  unfold bind at 1. rewrite release_spec by reflexivity.
  cbn [set_ht after_read list_of_chunks agent_ptr heap next_addr
       sigint_handler pending trace].
  rewrite fst_zip_seq, length_zip_with_l_eq by (by rewrite length_seq).
  rewrite length_seq.
  rewrite (delete_events_dead (seq 0%nat (length cs)))
    by (intros a Ha; by apply drop_all_in).
  unfold bind at 1, shutdown_agent, bind, at_point, the_agent, emit, call,
    ret, set_agent.
  cbn [pending agent_ptr list_of_chunks heap next_addr sigint_handler trace].
  unfold rendered_trace.
  destruct (agent_shutdown w (story_files_dir conf)) as [s2|e];
    cbn [snd trace]; eexists; rewrite <- !app_assoc; cbn [app]; reflexivity.
Qed.

End Initialized.

Lemma run_initialize_throws e :
  agent_initialize w (story_files_dir conf) = Throws e ->
  run w argv0 args None
  = (Terminated e,
     {| list_of_chunks := []; agent_ptr := Some (story_files_dir conf);
        heap := ∅; next_addr := 0%nat; sigint_handler := true;
        pending := None;
        trace := [EvConfigure (conf_file q); EvMonitorInit; EvSignal;
                  EvNewAgent (story_files_dir conf); EvInitialize] |}).
Proof.
  intros He. unfold run.
  rewrite (main_with_config w argv0 args q Hflags Hfile).
  unfold query_body, read_story, the_agent, get_list, out.
  rewrite Hconf.
  unfold bind, at_point, call, emit, ret, init_proc, set_handler,
    set_agent, with_pending.
  cbn -[render release shutdown_agent Z.eqb]. rewrite Hlog.
  rewrite (proj2 (Z.eqb_neq r 1) Hr).
  cbn -[render release shutdown_agent]. rewrite He. reflexivity.
Qed.

(** C2, as amended.  [main] compares the start and the end of the window
    with nothing: for every window, inverted or not, once the
    configuration is loaded, the logger is up and [initialize] has
    returned, [readArchivedStory] is called, once, with the start and the
    end the flag loop produced. *)
Theorem window_is_not_validated (s0 : Z)
    (Hinit : agent_initialize w (story_files_dir conf) = Returns s0) :
  reads (trace (snd (run w argv0 args None)))
  = [(chronicle_name q, story_name q, start_time q, end_time q, [])].
Proof. exact (read_invoked s0 Hinit). Qed.

(** C6, as amended.  An [initialize] that throws ends the process there,
    through [std::terminate], and the archive is never read; an
    [initialize] that returns, with whatever value, is followed by the
    read: [main] does not look at the value. *)
Theorem initialize_failure :
  (forall e, agent_initialize w (story_files_dir conf) = Throws e ->
     fst (run w argv0 args None) = Terminated e /\
     reads (trace (snd (run w argv0 args None))) = []) /\
  (forall s, agent_initialize w (story_files_dir conf) = Returns s ->
     reads (trace (snd (run w argv0 args None))) = [the_call q]).
Proof.
  split.
  - intros e He. rewrite (run_initialize_throws e He). split; reflexivity.
  - intros s Hs. exact (read_invoked s Hs).
Qed.

(** C7, as amended.  A [readArchivedStory] that throws ends the process
    there, through [std::terminate]: nothing is rendered, no chunk is
    deleted and the agent is not shut down.  A [readArchivedStory] that
    returns, with whatever status, is followed by the rendering of what it
    delivered: the count line and the text of every chunk. *)
Theorem read_failure (s0 : Z)
    (Hinit : agent_initialize w (story_files_dir conf) = Returns s0) :
  (forall e, read_status (the_read w q conf) = Throws e ->
     fst (run w argv0 args None) = Terminated e /\
     stdout (trace (snd (run w argv0 args None))) = [reading_line q] /\
     deleted (trace (snd (run w argv0 args None))) = [] /\
     shutdowns (trace (snd (run w argv0 args None))) = 0%nat /\
     list_of_chunks (snd (run w argv0 args None))
     = seq 0%nat (length (delivered (the_read w q conf)))) /\
  (forall s1, read_status (the_read w q conf) = Returns s1 ->
     exists t, trace (snd (run w argv0 args None))
               = rendered_trace q conf (delivered (the_read w q conf)) ++ t) /\
  stdout (rendered_trace q conf (delivered (the_read w q conf)))
  = reading_line q :: count_line (length (delivered (the_read w q conf)))
    :: rendering (delivered (the_read w q conf)).
Proof.
  split; [|split].
  - intros e He. rewrite (run_read_throws s0 Hinit e He).
    repeat split; reflexivity.
  - intros s1 H1. destruct (run_rendered s0 Hinit s1 H1) as [t Ht].
    rewrite Ht. eexists. reflexivity.
  - unfold rendered_trace.
    rewrite !stdout_app, stdout_print_events, snd_zip_seq. reflexivity.
Qed.



Section Completes.

Variables (s0 s1 s2 : Z).
Hypothesis Hinit : agent_initialize w (story_files_dir conf) = Returns s0.
Hypothesis Hread : read_status (the_read w q conf) = Returns s1.
Hypothesis Hshut : agent_shutdown w (story_files_dir conf) = Returns s2.

(** C1, on the code.  On the normal path every chunk that
    [readArchivedStory] delivered is handed to [delete] twice: by the
    printing loop while it is alive, and again by the clean-up loop when it
    is gone. *)
Theorem every_chunk_deleted_twice :
  fst (run w argv0 args None) = Exited 0 /\
  deleted (trace (snd (run w argv0 args None)))
  = seq 0%nat (length (delivered (the_read w q conf)))
    ++ seq 0%nat (length (delivered (the_read w q conf))) /\
  double_freed (trace (snd (run w argv0 args None)))
  = seq 0%nat (length (delivered (the_read w q conf))) /\
  (forall a, (a < length (delivered (the_read w q conf)))%nat ->
     deletes_of a (trace (snd (run w argv0 args None))) = 2%nat).
Proof.
  rewrite (run_normal s0 Hinit s1 s2 Hread Hshut).
  cbn [fst snd after_normal trace]. set (n := length _).
  assert (Hd : deleted (normal_trace q conf (delivered (the_read w q conf)))
               = seq 0%nat n ++ seq 0%nat n).
  { unfold normal_trace. rewrite !deleted_app, deleted_print_events,
      deleted_deletes, fst_zip_seq. cbn. by rewrite app_nil_r. }
  split; [reflexivity|]. split; [exact Hd|]. split.
  - unfold normal_trace. rewrite !double_freed_app, double_freed_print_events,
      double_freed_dead. cbn. by rewrite app_nil_r.
  - intros a Ha. unfold deletes_of. rewrite Hd.
    apply count_occ_twice; [apply NoDup_seq|]. apply elem_of_seq. lia.
Qed.


End Completes.

End Ready.
End Run.

Lemma window_is_not_validated_witness :
  reads (trace (snd (run (world_of []) "reader" inverted_args None)))
  = [("LLM", "conversation", 2000, 1000, [])].
Proof.
  exact (window_is_not_validated (world_of []) "reader"
           inverted_args inverted_query eq_refl ltac:(discriminate)
           sample_conf 0 eq_refl eq_refl ltac:(discriminate) 0 eq_refl).
Defined.

(** C2, as stated, fails: with start 2000 and end 1000 the archive is
    read, with that window; it holds nothing for such a window, and the
    process exits with status 0. *)
Lemma inverted_window_counterexample :
  flag_loop inverted_args default_query = inr inverted_query /\
  start_time inverted_query > end_time inverted_query /\
  reads (trace (snd (run (world_of []) "reader" inverted_args None)))
  = [("LLM", "conversation", 2000, 1000, [])] /\
  fst (run (world_of []) "reader" inverted_args None) = Exited 0.
Proof. repeat split. Qed.

Lemma initialize_failure_witness :
  (fst (run world_init_throws "reader" plain_args None)
   = Terminated (foreign_exception "no archive") /\
   reads (trace (snd (run world_init_throws "reader" plain_args None))) = []) /\
  reads (trace (snd (run world_init_status "reader" plain_args None)))
  = [the_call plain_query].
Proof.
  split.
  - exact (proj1 (initialize_failure world_init_throws "reader" plain_args
             plain_query eq_refl ltac:(discriminate) sample_conf 0 eq_refl
             eq_refl ltac:(discriminate)) _ eq_refl).
  - exact (proj2 (initialize_failure world_init_status "reader" plain_args
             plain_query eq_refl ltac:(discriminate) sample_conf 0 eq_refl
             eq_refl ltac:(discriminate)) _ eq_refl).
Defined.

(** C6, as stated, fails for an [initialize] that reports the failure
    through its return value: the value is dropped and the archive is
    read. *)
Lemma initialize_status_counterexample :
  agent_initialize world_init_status (story_files_dir sample_conf)
  = Returns (-1) /\
  reads (trace (snd (run world_init_status "reader" plain_args None)))
  = [("LLM", "conversation", 1736800000000000000, 1746539189396295796, [])] /\
  fst (run world_init_status "reader" plain_args None) = Exited 0.
Proof. repeat split. Qed.

Lemma read_failure_witness :
  (fst (run world_read_throws "reader" plain_args None)
   = Terminated (foreign_exception "read failed") /\
   deleted (trace (snd (run world_read_throws "reader" plain_args None))) = [] /\
   shutdowns (trace (snd (run world_read_throws "reader" plain_args None)))
   = 0%nat) /\
  exists t, trace (snd (run world_read_status "reader" plain_args None))
            = rendered_trace plain_query sample_conf [chunk_A] ++ t.
Proof.
  split.
  - destruct (proj1 (read_failure world_read_throws "reader" plain_args
                plain_query eq_refl ltac:(discriminate) sample_conf 0 eq_refl
                eq_refl ltac:(discriminate) 0 eq_refl) _ eq_refl)
      as (H1 & _ & H3 & H4 & _).
    exact (conj H1 (conj H3 H4)).
  - exact (proj1 (proj2 (read_failure world_read_status "reader" plain_args
             plain_query eq_refl ltac:(discriminate) sample_conf 0 eq_refl
             eq_refl ltac:(discriminate) 0 eq_refl)) (-1) eq_refl).
Defined.

(** C7, as stated, fails either way the read can fail.  When it throws,
    the process is terminated with the delivered chunk still alive and
    listed: no chunk is deleted and the agent is not shut down.  When it
    returns a failure status, the chunk it delivered is rendered. *)
Lemma read_failure_counterexample :
  (fst (run world_read_throws "reader" plain_args None)
   = Terminated (foreign_exception "read failed") /\
   deleted (trace (snd (run world_read_throws "reader" plain_args None))) = [] /\
   shutdowns (trace (snd (run world_read_throws "reader" plain_args None)))
   = 0%nat /\
   list_of_chunks (snd (run world_read_throws "reader" plain_args None))
   = [0%nat] /\
   heap (snd (run world_read_throws "reader" plain_args None)) !! 0%nat
   = Some chunk_A) /\
  (read_status (the_read world_read_status plain_query sample_conf)
   = Returns (-1) /\
   stdout (trace (snd (run world_read_status "reader" plain_args None)))
   = reading_line plain_query :: count_line 1
     :: chunk_header chunk_A :: map event_line (events chunk_A)).
Proof. repeat split. Qed.


Lemma every_chunk_deleted_twice_witness :
  deleted (trace (snd (run (world_of [chunk_A; chunk_B]) "reader" plain_args None)))
  = [0; 1; 0; 1]%nat /\
  double_freed
    (trace (snd (run (world_of [chunk_A; chunk_B]) "reader" plain_args None)))
  = [0; 1]%nat.
Proof.
  destruct (every_chunk_deleted_twice (world_of [chunk_A; chunk_B]) "reader"
              plain_args plain_query eq_refl ltac:(discriminate) sample_conf 0
              eq_refl eq_refl ltac:(discriminate) 0 0 0 eq_refl eq_refl eq_refl)
    as (_ & H1 & H2 & _).
  exact (conj H1 H2).
Defined.


(** The other order of the two paths: [SIGINT] arrives while the second
    chunk is being printed; the first chunk, which the printing loop has
    deleted, is deleted again by the handler. *)
Lemma interrupt_while_rendering_deletes_again :
  fst (run (world_of [chunk_A; chunk_B]) "reader" plain_args (Some 14%nat))
  = Exited 2 /\
  deleted (trace (snd (run (world_of [chunk_A; chunk_B]) "reader" plain_args
                         (Some 14%nat)))) = [0; 0; 1]%nat /\
  double_freed (trace (snd (run (world_of [chunk_A; chunk_B]) "reader"
                              plain_args (Some 14%nat)))) = [0%nat].
Proof. repeat split. Qed.

(** ** Claims on rendering and on the collection *)

Lemma zip_live (h : gmap addr StoryChunk) (l : list addr) (cs : list StoryChunk) :
  map (fun a => h !! a) l = map Some cs ->
  length l = length cs /\
  forall a c, (a, c) ∈ zip l cs -> h !! a = Some c.
Proof.
  intros H. split.
  - apply (f_equal length) in H. by rewrite !length_map in H.
  - intros a c Hac. apply list_elem_of_lookup in Hac as [i Hi].
    apply lookup_zip_with_Some in Hi as (x & y & E & Hx & Hy).
    injection E as -> ->.
    apply (f_equal (fun t => t !! i)) in H.
    rewrite !list_lookup_fmap, Hx, Hy in H. cbn in H. congruence.
Qed.

(** C3, on the code.  On a collection of distinct, live chunks and with
    no signal due, the printing loop writes what the claim says, the
    header with the event count and then the records of each chunk, in
    collection order, and leaves the list as it was; but it also deletes
    every chunk it has printed: after it none of them is alive. *)
Theorem render_chunks_releases (w : World) (l : list addr)
    (cs : list StoryChunk) (p : Proc)
    (Hp : pending p = None) (Hl : list_of_chunks p = l) (Hnd : NoDup l)
    (Hlive : map (fun a => heap p !! a) l = map Some cs) :
  exists p', render_chunks w p = Val tt p' /\
    stdout (trace p') = stdout (trace p) ++ rendering cs /\
    list_of_chunks p' = l /\
    deleted (trace p') = deleted (trace p) ++ l /\
    double_freed (trace p') = double_freed (trace p) /\
    forall a, a ∈ l -> heap p' !! a = None.
Proof.
  destruct (zip_live (heap p) l cs Hlive) as [Hlen Hz].
  assert (Hf : map fst (zip l cs) = l) by (apply fst_zip; lia).
  assert (Hs : map snd (zip l cs) = cs) by (apply snd_zip; lia).
  eexists. split.
  - apply (render_chunks_live w (zip l cs)); [exact Hp | | |exact Hz].
    + by rewrite Hf.
    + by rewrite Hf.
  - cbn [set_ht trace list_of_chunks heap].
    rewrite stdout_app, deleted_app, double_freed_app, stdout_print_events,
      deleted_print_events, double_freed_print_events, Hf, Hs, app_nil_r.
    repeat split; auto. intros a Ha. by apply drop_all_in.
Qed.

Lemma render_chunks_releases_witness :
  exists p',
    render_chunks (world_of [chunk_A; chunk_B])
      (after_read plain_query sample_conf [chunk_A; chunk_B] None) = Val tt p' /\
    deleted (trace p') = [0; 1]%nat /\
    heap p' !! 0%nat = None /\ heap p' !! 1%nat = None.
Proof.
  destruct (render_chunks_releases (world_of [chunk_A; chunk_B]) [0; 1]%nat
              [chunk_A; chunk_B]
              (after_read plain_query sample_conf [chunk_A; chunk_B] None)
              eq_refl eq_refl (NoDup_seq 0 2) eq_refl)
    as (p' & H1 & _ & _ & H4 & _ & H6).
  exists p'. split; [exact H1|]. split; [exact H4|].
  split; apply H6; set_solver.
Defined.

(** C9.  With no signal due, rendering an empty collection prints the
    count line for 0 chunks and nothing else, and changes nothing else. *)
Theorem render_empty_collection (w : World) (p : Proc)
    (Hp : pending p = None) (Hl : list_of_chunks p = []) :
  render w p = Val tt (set_ht (heap p) (trace p ++ [EvOut (count_line 0)]) p) /\
  count_line 0 = ("0 chunk(s) returned." ++ nl)%string /\
  rendering [] = [].
Proof.
  split; [|split; reflexivity].
  unfold render, render_chunks, bind, at_point, get_list, out, emit, set_ht.
  rewrite !Hp. cbn. rewrite !Hl. reflexivity.
Qed.

Lemma render_empty_collection_witness :
  render (world_of []) (after_read plain_query sample_conf [] None)
  = Val tt (set_ht ∅ (prefix_trace plain_query sample_conf
                        ++ [EvOut ("0 chunk(s) returned." ++ nl)%string])
              (after_read plain_query sample_conf [] None)).
Proof.
  exact (proj1 (render_empty_collection (world_of [])
                  (after_read plain_query sample_conf [] None)
                  eq_refl eq_refl)).
Defined.

(** * Further properties of the script *)

(** ** The flag loop *)

(** X1.  An argument vector in which no flag of the loop occurs leaves the
    query as it was: unknown arguments are ignored, one at a time. *)
Theorem unknown_arguments_ignored (args : list string) (q : Query)
    (Hunknown : forall a, In a args -> known_flag a = false) :
  flag_loop args q = inr q.
Proof.
  induction args as [|a args IH]; [reflexivity|].
  assert (Ha : known_flag a = false) by (apply Hunknown; left; reflexivity).
  unfold known_flag in Ha.
  apply orb_false_iff in Ha as [Ha Hw].
  apply orb_false_iff in Ha as [Ha HS].
  apply orb_false_iff in Ha as [Hc HC].
  rewrite flag_loop_skip by assumption.
  apply IH. intros b Hb. apply Hunknown. right. exact Hb.
Qed.

Lemma unknown_arguments_ignored_witness :
  flag_loop ["-s"; "5"; "--verbose"; "-e"; "9"; "extra"] default_query
  = inr default_query.
Proof.
  apply unknown_arguments_ignored. intros a Ha. simpl in Ha.
  repeat (destruct Ha as [<-|Ha]; [reflexivity|]). destruct Ha.
Defined.

Ltac flag_cases E :=
  rewrite flag_loop_step in E;
  repeat match type of E with
         | context [if ?b then _ else _] => destruct b eqn:?
         | context [match stoull ?v with _ => _ end] =>
             destruct (stoull v) eqn:?; [discriminate E|]
         end.

Lemma flag_loop_chronicle_len (n : nat) :
  forall args q q', (length args <= n)%nat ->
    (forall a, In a args -> (a =? "-C")%string = false) ->
    flag_loop args q = inr q' -> chronicle_name q' = chronicle_name q.
Proof.
  induction n as [|n IH]; intros args q q' Hlen Hno E.
  - destruct args; [|simpl in Hlen; lia]. simpl in E. congruence.
  - destruct args as [|a [|v rest]]; [simpl in E; congruence.. |].
    assert (Ha : (a =? "-C")%string = false) by (apply Hno; simpl; auto).
    assert (Hrest : forall b, In b rest -> (b =? "-C")%string = false)
      by (intros b Hb; apply Hno; simpl; auto).
    assert (Hvrest : forall b, In b (v :: rest) -> (b =? "-C")%string = false)
      by (intros b Hb; apply Hno; simpl; auto).
    simpl in Hlen. flag_cases E; try congruence;
      (apply IH in E; [exact E | simpl; lia | assumption]).
Qed.

Lemma flag_loop_story_len (n : nat) :
  forall args q q', (length args <= n)%nat ->
    (forall a, In a args -> (a =? "-S")%string = false) ->
    flag_loop args q = inr q' -> story_name q' = story_name q.
Proof.
  induction n as [|n IH]; intros args q q' Hlen Hno E.
  - destruct args; [|simpl in Hlen; lia]. simpl in E. congruence.
  - destruct args as [|a [|v rest]]; [simpl in E; congruence.. |].
    assert (Ha : (a =? "-S")%string = false) by (apply Hno; simpl; auto).
    assert (Hrest : forall b, In b rest -> (b =? "-S")%string = false)
      by (intros b Hb; apply Hno; simpl; auto).
    assert (Hvrest : forall b, In b (v :: rest) -> (b =? "-S")%string = false)
      by (intros b Hb; apply Hno; simpl; auto).
    simpl in Hlen. flag_cases E; try congruence;
      (apply IH in E; [exact E | simpl; lia | assumption]).
Qed.

(** X2.  Each name of the query has one flag: when the loop completes,
    the chronicle is the one it was entered with unless [-C] occurs among
    the arguments, the story unless [-S] occurs, and the configuration
    file unless [-c] or [--config] occurs. *)
Theorem flag_loop_names_frame (args : list string) (q q' : Query)
    (Hloop : flag_loop args q = inr q') :
  ((forall a, In a args -> (a =? "-C")%string = false) ->
   chronicle_name q' = chronicle_name q) /\
  ((forall a, In a args -> (a =? "-S")%string = false) ->
   story_name q' = story_name q) /\
  ((forall a, In a args -> config_flag a = false) ->
   conf_file q' = conf_file q).
Proof.
  split; [|split]; intros Hno.
  - exact (flag_loop_chronicle_len (length args) args q q' (le_n _) Hno Hloop).
  - exact (flag_loop_story_len (length args) args q q' (le_n _) Hno Hloop).
  - exact (flag_loop_conf_len (length args) args q q' (le_n _) Hno Hloop).
Qed.

Lemma flag_loop_names_frame_witness :
  flag_loop ["-c"; "conf.json"; "-S"; "tales"] default_query
  = inr (set_story_name "tales" plain_query) /\
  chronicle_name (set_story_name "tales" plain_query) = "LLM".
Proof.
  split; [reflexivity|].
  apply (proj1 (flag_loop_names_frame ["-c"; "conf.json"; "-S"; "tales"]
                  default_query _ eq_refl)).
  intros a Ha. simpl in Ha.
  repeat (destruct Ha as [<-|Ha]; [reflexivity|]). destruct Ha.
Defined.

(** ** [std::stoull] as the loop uses it *)

Lemma digit_val_range c d : digit_val c = Some d -> 0 <= d <= 9.
Proof.
  unfold digit_val. destruct (_ && _) eqn:E; [|discriminate].
  intros [= <-]. apply andb_true_iff in E as [E1 E2]. lia.
Qed.

Lemma take_digits_range s : Forall (fun d => 0 <= d <= 9) (take_digits s).
Proof.
  induction s as [|c s IH]; simpl; [constructor|].
  destruct (digit_val c) as [d|] eqn:E; constructor; [|exact IH].
  by apply digit_val_range in E.
Qed.

Lemma fold_digits_nonneg ds :
  forall acc, 0 <= acc -> Forall (fun d => 0 <= d <= 9) ds ->
    0 <= fold_left (fun acc d => acc * 10 + d) ds acc.
Proof.
  induction ds as [|d ds IH]; intros acc Hacc Hds; simpl; [exact Hacc|].
  apply Forall_cons in Hds as [Hd Hds]. apply IH; [lia | exact Hds].
Qed.

Lemma stoull_range s n : stoull s = inr n -> 0 <= n <= ULLONG_MAX.
Proof.
  unfold stoull.
  destruct (match skip_space s with
            | String "-"%char r => (true, r)
            | String "+"%char r => (false, r)
            | _ => (false, skip_space s)
            end) as [neg s2].
  pose proof (take_digits_range s2) as Hr.
  destruct (take_digits s2) as [|d ds] eqn:E; [discriminate|].
  pose proof (fold_digits_nonneg (d :: ds) 0 ltac:(lia) Hr) as Hv.
  fold (digits_value (d :: ds)) in Hv.
  destruct (ULLONG_MAX <? digits_value (d :: ds)) eqn:Hmax; [discriminate|].
  apply Z.ltb_ge in Hmax. intros [= <-]. destruct neg; [|lia].
  unfold wrap64, ULLONG_MAX.
  change (2 ^ 64) with 18446744073709551616.
  pose proof (Z.mod_pos_bound (- digits_value (d :: ds)) 18446744073709551616
                ltac:(lia)). lia.
Qed.

Lemma flag_loop_range_len (n : nat) :
  forall args q q', (length args <= n)%nat -> window_in_range q ->
    flag_loop args q = inr q' -> window_in_range q'.
Proof.
  induction n as [|n IH]; intros args q q' Hlen Hq E.
  - destruct args; [|simpl in Hlen; lia]. simpl in E. congruence.
  - destruct args as [|a [|v rest]]; [simpl in E; congruence.. |].
    simpl in Hlen. destruct Hq as [Hs He]. flag_cases E;
      (apply IH in E; [exact E | simpl; lia |]);
      try (split; assumption);
      match goal with H : stoull _ = inr _ |- _ => apply stoull_range in H end;
      split; assumption.
Qed.

(** X3.  Whatever is on the command line, a flag loop that completes
    leaves a start and an end that fit [uint64_t]: [std::stoull] either
    throws or yields such a value, also for a negative or an oversized
    numeral. *)
Theorem window_fits_uint64 (args : list string) (q : Query)
    (Hloop : flag_loop args default_query = inr q) :
  window_in_range q.
Proof.
  apply (flag_loop_range_len (length args) args default_query q (le_n _));
    [|exact Hloop].
  repeat split; apply Z.leb_le; reflexivity.
Qed.

Lemma window_fits_uint64_witness :
  window_in_range
    {| conf_file := ""; chronicle_name := "LLM"; story_name := "conversation";
       start_time := 18446744073709551615; end_time := 7 |}.
Proof.
  exact (window_fits_uint64 ["-st"; "-1"; "-et"; " +7days"] _ eq_refl).
Defined.

Lemma digits_value_snoc ds d :
  digits_value (ds ++ [d]) = digits_value ds * 10 + d.
Proof. unfold digits_value. rewrite fold_left_app. reflexivity. Qed.

Lemma digit_val_pretty x :
  (x < 10)%N -> digit_val (pretty_N_char x) = Some (Z.of_N x).
Proof.
  intros H.
  assert (x = 0 \/ x = 1 \/ x = 2 \/ x = 3 \/ x = 4 \/ x = 5 \/ x = 6
          \/ x = 7 \/ x = 8 \/ x = 9)%N as Hx by lia.
  repeat (destruct Hx as [->|Hx]; [reflexivity|]). subst. reflexivity.
Qed.

(** The digits [pretty] puts in front of [s] are read back as [x]. *)
Lemma take_digits_pretty_go x :
  forall s, exists ds,
    take_digits (pretty_N_go x s) = ds ++ take_digits s /\
    digits_value ds = Z.of_N x /\ ((0 < x)%N -> ds <> []).
Proof.
  induction (N.lt_wf_0 x) as [x _ IH]; intros s.
  destruct (decide (x = 0)%N) as [->|Hx].
  - exists []. rewrite pretty_N_go_0. repeat split. lia.
  - rewrite pretty_N_go_step by lia.
    destruct (IH (x `div` 10)%N ltac:(apply N.div_lt; lia)
                (String (pretty_N_char (x `mod` 10)) s))
      as (ds & Hds & Hv & _).
    exists (ds ++ [Z.of_N (x `mod` 10)]). split; [|split].
    + rewrite Hds. cbn [take_digits].
      rewrite digit_val_pretty by (apply N.mod_lt; lia).
      by rewrite <- app_assoc.
    + rewrite digits_value_snoc, Hv.
      rewrite (N.div_mod x 10) at 3 by lia. lia.
    + intros _. by destruct ds.
Qed.

Lemma leading_digit s :
  take_digits s <> [] ->
  skip_space s = s /\
  match s with
  | String "-"%char r => (true, r)
  | String "+"%char r => (false, r)
  | _ => (false, s)
  end = (false, s).
Proof.
  destruct s as [|c r]; [intros H; by destruct H|].
  cbn [take_digits skip_space]. intros H.
  destruct (digit_val c) as [d|] eqn:E; [clear H|by destruct H].
  destruct c as [[] [] [] [] [] [] [] []]; try discriminate E;
    split; reflexivity.
Qed.

(** X4.  Reading back what [operator<<] prints: for every [uint64_t]
    value [n], [std::stoull] of the decimal text of [n] is [n], so a start
    or an end given in that form reaches the query unchanged. *)
Theorem stoull_reads_back (n : Z) (Hn : 0 <= n <= ULLONG_MAX) :
  stoull (show n) = inr n /\
  (forall rest q, flag_loop ("-st" :: show n :: rest) q
                  = flag_loop rest (set_start_time n q)) /\
  (forall rest q, flag_loop ("-et" :: show n :: rest) q
                  = flag_loop rest (set_end_time n q)).
Proof.
  assert (H : stoull (show n) = inr n).
  { unfold show, pretty, pretty_N.
    destruct (decide (Z.to_N n = 0%N)) as [E|E].
    - assert (n = 0) as -> by lia. reflexivity.
    - destruct (take_digits_pretty_go (Z.to_N n) "") as (ds & Hds & Hv & Hne).
      cbn [take_digits] in Hds. rewrite app_nil_r in Hds.
      assert (Hne' : take_digits (pretty_N_go (Z.to_N n) "") <> [])
        by (rewrite Hds; apply Hne; lia).
      destruct (leading_digit _ Hne') as [Hsp Hsign].
      unfold stoull. rewrite Hsp, Hsign, Hds.
      destruct ds as [|d ds']; [by destruct Hne'; rewrite Hds|].
      rewrite Hv, Z2N.id by lia.
      destruct (ULLONG_MAX <? n) eqn:Hmax; [apply Z.ltb_lt in Hmax; lia|].
      reflexivity. }
  split; [exact H|].
  split; intros rest q; rewrite flag_loop_step; cbn; by rewrite H.
Qed.

Lemma stoull_reads_back_witness :
  stoull (show 1736800000000000000) = inr 1736800000000000000.
Proof.
  apply (stoull_reads_back 1736800000000000000).
  unfold ULLONG_MAX. lia.
Defined.

Lemma flag_loop_throws_len (n : nat) :
  forall args q e, (length args <= n)%nat -> flag_loop args q = inl e ->
    exists i a v, args !! i = Some a /\ args !! S i = Some v /\
                  window_flag a = true /\ stoull v = inl e.
Proof.
  induction n as [|n IH]; intros args q e Hlen E.
  - destruct args; [|simpl in Hlen; lia]. discriminate.
  - destruct args as [|a [|v rest]]; [discriminate.. |].
    simpl in Hlen. rewrite flag_loop_step in E.
    assert (Hshift2 : forall q0, flag_loop rest q0 = inl e ->
      exists i a0 v0, (a :: v :: rest) !! i = Some a0 /\
        (a :: v :: rest) !! S i = Some v0 /\
        window_flag a0 = true /\ stoull v0 = inl e).
    { intros q0 H. apply IH in H as (i & a0 & v0 & ?); [|lia].
      exists (S (S i)), a0, v0. exact H. }
    destruct ((a =? "-c")%string || (a =? "--config")%string); [eauto|].
    destruct (a =? "-C")%string; [eauto|].
    destruct (a =? "-S")%string; [eauto|].
    destruct ((a =? "-st")%string || (a =? "--start")%string) eqn:Hst.
    { destruct (stoull v) as [e'|m] eqn:Hv; [|eauto].
      injection E as ->. exists 0%nat, a, v. repeat split; auto.
      unfold window_flag. rewrite Hst. reflexivity. }
    destruct ((a =? "-et")%string || (a =? "--end")%string) eqn:Het.
    { destruct (stoull v) as [e'|m] eqn:Hv; [|eauto].
      injection E as ->. exists 0%nat, a, v. repeat split; auto.
      unfold window_flag. rewrite <- orb_assoc, Het.
      by rewrite !orb_true_r. }
    apply IH in E as (i & a0 & v0 & ?); [|simpl; lia].
    exists (S i), a0, v0. assumption.
Qed.

(** X5.  The flag loop can only fail on the value of a start or end flag
    that [std::stoull] rejects, and then the process is terminated at once
    with that exception: no usage text, no collaborator called, whatever
    else is on the command line and whenever a signal is due. *)
Theorem bad_number_terminates (args : list string) (e : Exn)
    (Hloop : flag_loop args default_query = inl e) :
  (exists i a v, args !! i = Some a /\ args !! S i = Some v /\
                 window_flag a = true /\ stoull v = inl e) /\
  (forall w argv0 sig,
     run w argv0 args sig = (Terminated e, init_proc sig)).
Proof.
  split.
  - exact (flag_loop_throws_len (length args) args _ e (le_n _) Hloop).
  - intros w argv0 sig. unfold run.
    by rewrite (main_bad_flags w argv0 args e Hloop).
Qed.

Lemma bad_number_terminates_witness :
  run (world_of [chunk_A]) "reader"
      ["-c"; "conf.json"; "--end"; "99999999999999999999"] None
  = (Terminated (out_of_range "stoull"), init_proc None).
Proof.
  exact (proj2 (bad_number_terminates
                  ["-c"; "conf.json"; "--end"; "99999999999999999999"]
                  (out_of_range "stoull") eq_refl)
               (world_of [chunk_A]) "reader" None).
Defined.

(** ** Starting up, and signals before the read *)

Section Startup.

Variable w : World.
Variables (argv0 : string) (args : list string) (q : Query).
Hypothesis Hflags : flag_loop args default_query = inr q.
Hypothesis Hfile : conf_file q <> "".

Ltac start_up :=
  unfold run; rewrite (main_with_config w argv0 args q Hflags Hfile);
  unfold query_body, read_story, the_agent, get_list, out, bind, at_point,
    deliver, signalHandler, get_agent, call, emit, ret, exit, halt, init_proc,
    set_handler, set_agent, with_pending.

(** X6.  Before the agent exists the script has three ways to fail, all
    without a handler installed and without an agent: the configuration
    manager throws, the logger throws, or the logger returns 1, the only
    value of the logger that [main] takes for a failure and answers with
    [EXIT_FAILURE]. *)
Theorem startup_failures :
  (forall e, ConfigurationManager w (conf_file q) = Throws e ->
     fst (run w argv0 args None) = Terminated e /\
     trace (snd (run w argv0 args None)) = [EvConfigure (conf_file q)]) /\
  (forall conf e,
     ConfigurationManager w (conf_file q) = Returns conf ->
     chrono_monitor_initialize w (CLIENT_LOG_CONF conf) = Throws e ->
     fst (run w argv0 args None) = Terminated e /\
     trace (snd (run w argv0 args None))
     = [EvConfigure (conf_file q); EvMonitorInit]) /\
  (forall conf,
     ConfigurationManager w (conf_file q) = Returns conf ->
     chrono_monitor_initialize w (CLIENT_LOG_CONF conf) = Returns 1 ->
     fst (run w argv0 args None) = Exited EXIT_FAILURE /\
     trace (snd (run w argv0 args None))
     = [EvConfigure (conf_file q); EvMonitorInit] /\
     sigint_handler (snd (run w argv0 args None)) = false /\
     agent_ptr (snd (run w argv0 args None)) = None).
Proof.
  split; [|split].
  - intros e He. start_up. rewrite He. cbn. split; reflexivity.
  - intros conf e Hc He. start_up. rewrite Hc. cbn. rewrite He. cbn.
    split; reflexivity.
  - intros conf Hc Hl. start_up. rewrite Hc. cbn. rewrite Hl. cbn.
    repeat split; reflexivity.
Qed.

Section Started.

Variables (conf : Configuration) (r : Z).
Hypothesis Hconf : ConfigurationManager w (conf_file q) = Returns conf.
Hypothesis Hlog : chrono_monitor_initialize w (CLIENT_LOG_CONF conf) = Returns r.
Hypothesis Hr : r <> 1.

Ltac go :=
  start_up; rewrite ?Hconf; cbn -[Z.eqb render release shutdown_agent];
  rewrite ?Hlog; cbn -[Z.eqb render release shutdown_agent];
  rewrite ?(proj2 (Z.eqb_neq r 1) Hr);
  cbn -[Z.eqb render release shutdown_agent].

(** X7.  A [SIGINT] that arrives before [signal(SIGINT, signalHandler)]
    has been executed, that is within the first three statements, meets
    the default action: the process is killed by the signal, the handler
    does not run, nothing is printed and no agent is created. *)
Theorem signal_before_handler (k : nat) (Hk : (k <= 2)%nat) :
  fst (run w argv0 args (Some k)) = Killed SIGINT /\
  stdout (trace (snd (run w argv0 args (Some k)))) = [] /\
  agents_opened (trace (snd (run w argv0 args (Some k)))) = 0%nat.
Proof.
  assert (k = 0 \/ k = 1 \/ k = 2)%nat as [-> | [-> | ->]] by lia;
    go; repeat split; reflexivity.
Qed.

(** X8.  A [SIGINT] that arrives right after the handler is installed and
    before the agent is created runs the handler on a null [agent_ptr]
    and an empty list: the interrupt line is printed, nothing is deleted,
    no [shutdown] is called, and the exit status is the signal number. *)
Theorem signal_before_agent :
  fst (run w argv0 args (Some 3%nat)) = Exited SIGINT /\
  trace (snd (run w argv0 args (Some 3%nat)))
  = [EvConfigure (conf_file q); EvMonitorInit; EvSignal;
     EvOut (interrupt_line SIGINT)] /\
  agent_ptr (snd (run w argv0 args (Some 3%nat))) = None.
Proof. go. repeat split; reflexivity. Qed.

(** X9.  A [SIGINT] that arrives after line 74 has stored the new agent
    in [agent_ptr] and before [readArchivedStory] is called finds the
    pointer set and the list empty: the handler shuts the agent down once
    and deletes it; nothing is read and no chunk is deleted.  When it
    arrives before [initialize] is called, the agent is shut down without
    ever having been initialized. *)
Theorem signal_before_read (k : nat) (s0 s2 : Z)
    (Hk : (4 <= k <= 6)%nat)
    (Hinit : agent_initialize w (story_files_dir conf) = Returns s0)
    (Hshut : agent_shutdown w (story_files_dir conf) = Returns s2) :
  fst (run w argv0 args (Some k)) = Exited SIGINT /\
  agent_ptr (snd (run w argv0 args (Some k))) = Some (story_files_dir conf) /\
  list_of_chunks (snd (run w argv0 args (Some k))) = [] /\
  shutdowns (trace (snd (run w argv0 args (Some k)))) = 1%nat /\
  reads (trace (snd (run w argv0 args (Some k)))) = [] /\
  deleted (trace (snd (run w argv0 args (Some k)))) = [] /\
  (k = 4%nat ->
   trace (snd (run w argv0 args (Some k)))
   = [EvConfigure (conf_file q); EvMonitorInit; EvSignal;
      EvNewAgent (story_files_dir conf); EvOut (interrupt_line SIGINT);
      EvShutdown; EvDeleteAgent]).
Proof.
  assert (k = 4 \/ k = 5 \/ k = 6)%nat as [-> | [-> | ->]] by lia;
    go; rewrite ?Hinit; cbn -[render release shutdown_agent];
    rewrite Hshut; cbn; repeat split; intros; (reflexivity || lia).
Qed.

End Started.
End Startup.


(** ** The handler on any state *)

Lemma deleted_delete_events (l : list addr) :
  forall h : gmap addr StoryChunk, deleted (delete_events h l) = l.
Proof. induction l as [|a l IH]; intros h; [reflexivity|]. cbn. by rewrite IH. Qed.
Lemma stdout_delete_events (l : list addr) :
  forall h : gmap addr StoryChunk, stdout (delete_events h l) = [].
Proof. induction l as [|a l IH]; intros h; [reflexivity|]. apply IH. Qed.
Lemma shutdowns_delete_events (l : list addr) :
  forall h : gmap addr StoryChunk, shutdowns (delete_events h l) = 0%nat.
Proof. induction l as [|a l IH]; intros h; [reflexivity|]. apply IH. Qed.

Lemma double_freed_delete_events_live (l : list addr) :
  forall h : gmap addr StoryChunk, NoDup l ->
    (forall a, a ∈ l -> is_Some (h !! a)) ->
    double_freed (delete_events h l) = [].
Proof.
  intros h Hnd Hl. rewrite delete_events_live by assumption.
  apply double_freed_live.
Qed.

(** X10.  [signalHandler] entered in a state whose listed chunks are
    distinct and alive and whose agent, if [agent_ptr] is set, has not been
    deleted: it prints the interrupt line, deletes every chunk of the list
    once, in list order, and leaves the list and [agent_ptr] as they were.
    With a null [agent_ptr] it then exits with the signal number without
    calling [shutdown]; with an agent it calls [shutdown] once, then
    deletes the agent and exits with the signal number if that returns,
    and is terminated by the exception, the agent not deleted, if it
    throws. *)
Theorem handler_on_live_state (w : World) (sig : Z) (p : Proc)
    (Hnd : NoDup (list_of_chunks p))
    (Hlive : forall a, a ∈ list_of_chunks p -> is_Some (heap p !! a))
    (Hagent : agent_deletes (trace p) = 0%nat) :
  exists st p',
    @signalHandler w unit sig p = Halt st p' /\
    list_of_chunks p' = list_of_chunks p /\
    agent_ptr p' = agent_ptr p /\
    stdout (trace p') = stdout (trace p) ++ [interrupt_line sig] /\
    deleted (trace p') = deleted (trace p) ++ list_of_chunks p /\
    double_freed (trace p') = double_freed (trace p) /\
    (forall a, a ∈ list_of_chunks p -> heap p' !! a = None) /\
    match agent_ptr p with
    | None =>
        st = Exited sig /\ shutdowns (trace p') = shutdowns (trace p)
    | Some h =>
        shutdowns (trace p') = S (shutdowns (trace p)) /\
        match agent_shutdown w h with
        | Returns _ => st = Exited sig /\ agent_deletes (trace p') = 1%nat
        | Throws e => st = Terminated e /\ agent_deletes (trace p') = 0%nat
        end
    end.
Proof.
  unfold signalHandler, out. unfold bind at 1. unfold emit at 1.
  unfold bind at 1, get_list at 1. unfold bind at 1.
  rewrite for_each_delete. unfold bind at 1, get_agent at 1.
  cbn [agent_ptr set_ht list_of_chunks heap trace].
  assert (Hso : forall t, stdout ((trace p ++ [EvOut (interrupt_line sig)])
                            ++ delete_events (heap p) (list_of_chunks p) ++ t)
                = stdout (trace p) ++ [interrupt_line sig] ++ stdout t).
  { intros t. rewrite !stdout_app, stdout_delete_events, <- app_assoc.
    reflexivity. }
  assert (Hde : forall t, deleted ((trace p ++ [EvOut (interrupt_line sig)])
                            ++ delete_events (heap p) (list_of_chunks p) ++ t)
                = deleted (trace p) ++ list_of_chunks p ++ deleted t).
  { intros t. rewrite !deleted_app, deleted_delete_events, <- app_assoc.
    reflexivity. }
  assert (Hdf : forall t, double_freed
                            ((trace p ++ [EvOut (interrupt_line sig)])
                             ++ delete_events (heap p) (list_of_chunks p) ++ t)
                = double_freed (trace p) ++ double_freed t).
  { intros t. rewrite !double_freed_app,
      double_freed_delete_events_live by assumption.
    cbn. by rewrite app_nil_r. }
  assert (Hsh : forall t, shutdowns ((trace p ++ [EvOut (interrupt_line sig)])
                            ++ delete_events (heap p) (list_of_chunks p) ++ t)
                = (shutdowns (trace p) + shutdowns t)%nat).
  { intros t. rewrite !shutdowns_app, shutdowns_delete_events. cbn. lia. }
  assert (Had : forall t, agent_deletes
                            ((trace p ++ [EvOut (interrupt_line sig)])
                             ++ delete_events (heap p) (list_of_chunks p) ++ t)
                = agent_deletes t).
  { intros t. unfold agent_deletes in *. rewrite !omap_app, !length_app, Hagent.
    assert (E : forall (l : list addr) (h : gmap addr StoryChunk),
      omap (fun e => match e with EvDeleteAgent => Some tt | _ => None end)
           (delete_events h l) = []).
    { induction l; intros h; [reflexivity | apply IHl]. }
    rewrite E. cbn. lia. }
  assert (Hgone : forall a, a ∈ list_of_chunks p ->
                    drop_all (list_of_chunks p) (heap p) !! a = None)
    by (intros a Ha; by apply drop_all_in).
  destruct (agent_ptr p) as [h|] eqn:Hh.
  - unfold bind, emit, call, exit, halt, ret, set_ht.
    cbn [list_of_chunks agent_ptr heap next_addr sigint_handler pending trace].
    destruct (agent_shutdown w h) as [s|e];
      cbn [trace list_of_chunks agent_ptr heap];
      eexists _, _; (split; [reflexivity|]);
      cbn [list_of_chunks agent_ptr trace heap];
      rewrite <- !app_assoc;
      rewrite (app_assoc (trace p)), Hso, Hde, Hdf, Hsh, Had; cbn;
      rewrite !app_nil_r; repeat split; auto; lia.
  - unfold bind, exit, halt, ret, set_ht.
    eexists _, _. split; [reflexivity|].
    cbn [list_of_chunks agent_ptr trace heap].
    specialize (Hso []). specialize (Hde []). specialize (Hdf []).
    specialize (Hsh []).
    rewrite !app_nil_r in *. rewrite Hso, Hde, Hdf, Hsh.
    repeat split; auto; lia.
Qed.

Lemma handler_on_live_state_witness :
  exists st p',
    @signalHandler (world_of [chunk_A; chunk_B]) unit 2
      (after_read plain_query sample_conf [chunk_A; chunk_B] None)
    = Halt st p' /\
    deleted (trace p') = [0; 1]%nat /\ double_freed (trace p') = [].
Proof.
  destruct (handler_on_live_state (world_of [chunk_A; chunk_B]) 2
              (after_read plain_query sample_conf [chunk_A; chunk_B] None)
              (NoDup_seq 0 2)) as (st & p' & H1 & _ & _ & _ & H5 & H6 & _).
  - intros a Ha. cbn in Ha.
    apply elem_of_cons in Ha as [-> | Ha]; [eexists; reflexivity|].
    apply elem_of_cons in Ha as [-> | Ha]; [eexists; reflexivity|].
    inversion Ha.
  - reflexivity.
  - exists st, p'. split; [exact H1|]. split; [exact H5 | exact H6].
Defined.

(** ** Statements executed while a signal is still to come *)

Lemma at_point_later {A} w (m : M A) p n :
  pending p = Some (S n) -> at_point w m p = m (with_pending (Some n) p).
Proof. unfold at_point. intros ->. reflexivity. Qed.

Lemma at_point_now {A} w (m : M A) p :
  pending p = Some 0%nat -> at_point w m p = deliver w SIGINT (with_pending None p).
Proof. unfold at_point. intros ->. reflexivity. Qed.

Lemma for_each_app {A} (l1 l2 : list A) (body : A -> M unit) p :
  for_each (l1 ++ l2) body p = (for_each l1 body ;; for_each l2 body) p.
Proof.
  revert p. induction l1 as [|x l1 IH]; intros p; [reflexivity|].
  cbn [app for_each]. unfold bind.
  destruct (body x p) as [[] p1|st p1]; [|reflexivity].
  rewrite IH. reflexivity.
Qed.

Lemma for_each_event_lines_later w (es : list LogEvent) k :
  forall p, pending p = Some (length es + k)%nat ->
    for_each es (fun e => at_point w (out (event_line e))) p
    = Val tt (with_pending (Some k)
                (set_ht (heap p)
                        (trace p ++ map EvOut (map event_line es)) p)).
Proof.
  induction es as [|e es IH]; intros p Hp.
  - destruct p. cbn in *. subst. unfold set_ht, with_pending. cbn.
    rewrite app_nil_r. reflexivity.
  - cbn [for_each]. unfold bind at 1.
    rewrite (at_point_later w _ p (length es + k)) by exact Hp.
    unfold out, emit at 1. rewrite IH by reflexivity.
    unfold set_ht, with_pending. cbn. rewrite <- app_assoc. reflexivity.
Qed.

Lemma print_chunk_later w a c k p :
  pending p = Some (2 + length (events c) + k)%nat -> heap p !! a = Some c ->
  print_chunk w a p
  = Val tt (with_pending (Some k)
              (set_ht (delete a (heap p))
                      (trace p ++ map EvOut (chunk_text c)
                               ++ [EvDelete a true]) p)).
Proof.
  intros Hp Ha. unfold print_chunk. unfold bind at 1.
  rewrite (at_point_later w _ p (S (length (events c) + k)))
    by (rewrite Hp; f_equal; lia).
  unfold bind at 1, chunk_at at 1. cbn [heap with_pending]. rewrite Ha.
  unfold out, emit at 1. unfold bind at 1, chunk_at at 1.
  cbn [heap with_pending]. rewrite Ha. unfold bind at 1.
  rewrite (for_each_event_lines_later w (events c) (S k))
    by (cbn; f_equal; lia).
  rewrite (at_point_later w _ _ k) by reflexivity.
  unfold delete_chunk, set_ht, with_pending.
  cbn [heap trace list_of_chunks agent_ptr next_addr sigint_handler pending].
  rewrite Ha, bool_decide_eq_true_2 by eauto.
  unfold chunk_text. cbn [map]. rewrite <- !app_assoc. reflexivity.
Qed.

Lemma for_each_print_chunk_later w (lc : list (addr * StoryChunk)) k :
  forall p, pending p = Some (render_cost (map snd lc) + k)%nat ->
    NoDup (map fst lc) ->
    (forall a c, (a, c) ∈ lc -> heap p !! a = Some c) ->
    for_each (map fst lc) (print_chunk w) p
    = Val tt (with_pending (Some k)
                (set_ht (drop_all (map fst lc) (heap p))
                        (trace p ++ print_events lc) p)).
Proof.
  induction lc as [|[a c] lc IH]; intros p Hp Hnd Hl.
  - destruct p. cbn in *. subst. unfold set_ht, with_pending. cbn.
    rewrite app_nil_r. reflexivity.
  - cbn [map fst snd render_cost fold_right] in *.
    apply NoDup_cons in Hnd as [Ha Hnd].
    cbn [for_each]. unfold bind at 1.
    rewrite (print_chunk_later w a c (render_cost (map snd lc) + k));
      [| rewrite Hp; f_equal; unfold render_cost; lia | apply Hl; left].
    rewrite IH; [| reflexivity | exact Hnd |].
    + unfold set_ht, with_pending, print_events.
      cbn [heap trace list_of_chunks agent_ptr next_addr sigint_handler
           pending flat_map drop_all fst snd].
      rewrite <- !app_assoc. reflexivity.
    + intros b d Hb. cbn [heap set_ht with_pending]. rewrite lookup_delete_ne.
      * apply Hl. by right.
      * intros ->. apply Ha. apply list_elem_of_fmap. by exists (b, d).
Qed.

Lemma for_each_delete_later w (l : list addr) k :
  forall p, pending p = Some (length l + k)%nat ->
    for_each l (fun a => at_point w (delete_chunk a)) p
    = Val tt (with_pending (Some k)
                (set_ht (drop_all l (heap p))
                        (trace p ++ delete_events (heap p) l) p)).
Proof.
  induction l as [|a l IH]; intros p Hp.
  - destruct p. cbn in *. subst. unfold set_ht, with_pending. cbn.
    rewrite app_nil_r. reflexivity.
  - cbn [for_each]. unfold bind at 1.
    rewrite (at_point_later w _ p (length l + k)) by exact Hp.
    unfold delete_chunk at 1. rewrite IH by reflexivity.
    unfold set_ht, with_pending. cbn. rewrite <- app_assoc. reflexivity.
Qed.

Lemma delete_events_app (l1 l2 : list addr) :
  forall h : gmap addr StoryChunk,
    delete_events h (l1 ++ l2)
    = delete_events h l1 ++ delete_events (drop_all l1 h) l2.
Proof.
  induction l1 as [|a l1 IH]; intros h; [reflexivity|].
  cbn. by rewrite IH.
Qed.

Lemma store_chunks_outside (cs : list StoryChunk) :
  forall n (h : gmap addr StoryChunk) a,
    (a < n \/ n + length cs <= a)%nat -> store_chunks n cs h !! a = h !! a.
Proof.
  induction cs as [|c cs IH]; intros n h a Ha; [reflexivity|].
  cbn [store_chunks length] in *. rewrite lookup_insert_ne by lia.
  apply IH. lia.
Qed.

Lemma print_prefix_later w n0 (cs1 : list StoryChunk) k p :
  pending p = Some (render_cost cs1 + k)%nat ->
  (forall i c, cs1 !! i = Some c -> heap p !! (n0 + i)%nat = Some c) ->
  for_each (seq n0 (length cs1)) (print_chunk w) p
  = Val tt (with_pending (Some k)
              (set_ht (drop_all (seq n0 (length cs1)) (heap p))
                      (trace p ++ print_events (zip (seq n0 (length cs1)) cs1))
                      p)).
Proof.
  intros Hp Hl.
  pose proof (for_each_print_chunk_later w (zip (seq n0 (length cs1)) cs1) k p)
    as H.
  rewrite fst_zip_seq, snd_zip_seq in H. apply H; [exact Hp | apply NoDup_seq |].
  intros a c Hac. apply list_elem_of_lookup in Hac as [i Hi].
  apply lookup_zip_with_Some in Hi as (x & y & E & Hx & Hy).
  injection E as -> ->. apply lookup_seq in Hx as [-> _]. by apply Hl.
Qed.


Lemma agent_deletes_app t1 t2 :
  agent_deletes (t1 ++ t2) = (agent_deletes t1 + agent_deletes t2)%nat.
Proof. unfold agent_deletes. by rewrite omap_app, length_app. Qed.
Lemma agent_deletes_outs (ss : list string) : agent_deletes (map EvOut ss) = 0%nat.
Proof. induction ss as [|s ss IH]; [reflexivity|]. exact IH. Qed.
Lemma agent_deletes_deletes b (l : list addr) :
  agent_deletes (map (fun a => EvDelete a b) l) = 0%nat.
Proof. induction l as [|a l IH]; [reflexivity|]. exact IH. Qed.
Lemma agent_deletes_print_events lc : agent_deletes (print_events lc) = 0%nat.
Proof.
  induction lc as [|[a c] lc IH]; [reflexivity|].
  unfold print_events in *. cbn [flat_map fst snd].
  rewrite !agent_deletes_app, agent_deletes_outs, IH. reflexivity.
Qed.
Lemma shutdowns_outs (ss : list string) : shutdowns (map EvOut ss) = 0%nat.
Proof. induction ss as [|s ss IH]; [reflexivity|]. exact IH. Qed.
Lemma shutdowns_print_events lc : shutdowns (print_events lc) = 0%nat.
Proof.
  induction lc as [|[a c] lc IH]; [reflexivity|].
  unfold print_events in *. cbn [flat_map fst snd].
  rewrite !shutdowns_app, shutdowns_outs, IH. reflexivity.
Qed.

Lemma render_later w (cs : list StoryChunk) n0 k p :
  pending p = Some (1 + render_cost cs + k)%nat ->
  list_of_chunks p = seq n0 (length cs) ->
  (forall i c, cs !! i = Some c -> heap p !! (n0 + i)%nat = Some c) ->
  render w p
  = Val tt (with_pending (Some k)
              (set_ht (drop_all (seq n0 (length cs)) (heap p))
                      (trace p ++ [EvOut (count_line (length cs))]
                               ++ print_events (zip (seq n0 (length cs)) cs))
                      p)).
Proof.
  intros Hp Hl Hlive. unfold render. unfold bind at 1.
  rewrite (at_point_later w _ p (render_cost cs + k)) by exact Hp.
  unfold bind at 1, get_list at 1, out, emit.
  unfold render_chunks, bind at 1, get_list at 1.
  cbn [with_pending list_of_chunks agent_ptr heap next_addr sigint_handler
       pending trace].
  rewrite Hl, length_seq.
  rewrite (print_prefix_later w n0 cs k) by (cbn; auto).
  unfold set_ht, with_pending.
  cbn [list_of_chunks agent_ptr heap next_addr sigint_handler pending trace].
  rewrite Hl, <- !app_assoc. reflexivity.
Qed.

Lemma release_later w k p :
  pending p = Some (length (list_of_chunks p) + 1 + k)%nat ->
  release w p
  = Val tt {| list_of_chunks := []; agent_ptr := agent_ptr p;
              heap := drop_all (list_of_chunks p) (heap p);
              next_addr := next_addr p;
              sigint_handler := sigint_handler p; pending := Some k;
              trace := trace p ++ delete_events (heap p) (list_of_chunks p)
                               ++ [EvClear] |}.
Proof.
  intros Hp. unfold release, bind, get_list.
  rewrite (for_each_delete_later w _ (S k)) by (rewrite Hp; f_equal; lia).
  rewrite (at_point_later w _ _ k) by reflexivity.
  unfold emit, set_list, set_ht, with_pending. cbn.
  rewrite <- app_assoc. reflexivity.
Qed.

(** ** Signals during rendering and during teardown *)

Section Teardown.

Variable w : World.
Variables (argv0 : string) (args : list string) (q : Query).
Hypothesis Hflags : flag_loop args default_query = inr q.
Hypothesis Hfile : conf_file q <> "".
Variables (conf : Configuration) (r s0 s1 s2 : Z).
Hypothesis Hconf : ConfigurationManager w (conf_file q) = Returns conf.
Hypothesis Hlog : chrono_monitor_initialize w (CLIENT_LOG_CONF conf) = Returns r.
Hypothesis Hr : r <> 1.
Hypothesis Hinit : agent_initialize w (story_files_dir conf) = Returns s0.
Hypothesis Hread : read_status (the_read w q conf) = Returns s1.
Hypothesis Hshut : agent_shutdown w (story_files_dir conf) = Returns s2.

Lemma run_interrupted_at_chunk (cs1 cs2 : list StoryChunk) (c : StoryChunk) :
  delivered (the_read w q conf) = cs1 ++ c :: cs2 ->
  exists t,
    trace (snd (run w argv0 args (Some (8 + render_cost cs1)%nat)))
    = prefix_trace q conf
      ++ [EvOut (count_line (length (cs1 ++ c :: cs2)))]
      ++ print_events (zip (seq 0%nat (length cs1)) cs1)
      ++ [EvOut (interrupt_line SIGINT)]
      ++ map (fun a => EvDelete a false) (seq 0%nat (length cs1))
      ++ map (fun a => EvDelete a true) (seq (length cs1) (S (length cs2)))
      ++ t.
Proof.
  intros Hcs.
  remember (run w argv0 args (Some (8 + render_cost cs1)%nat)) as X eqn:HX.
  change (Some (8 + render_cost cs1)%nat)
    with (later 7 (Some (1 + render_cost cs1)%nat)) in HX.
  rewrite (run_reaches_read w argv0 args q Hflags Hfile conf r Hconf Hlog Hr
             s0 Hinit), Hread, Hcs in HX.
  set (cs := cs1 ++ c :: cs2) in *.
  set (h0 := store_chunks 0%nat cs ∅) in *.
  assert (Hseq : seq 0%nat (length cs)
                 = seq 0%nat (length cs1) ++ seq (length cs1) (S (length cs2))).
  { unfold cs. rewrite length_app. cbn [length]. by rewrite seq_app. }
  unfold bind at 1, render at 1 in HX. unfold bind at 1 in HX.
  rewrite (at_point_later w _ _ (render_cost cs1)) in HX by reflexivity.
  unfold bind at 1, get_list at 1, out, emit in HX.
  cbn [with_pending after_read list_of_chunks agent_ptr heap next_addr
       sigint_handler pending trace] in HX.
  unfold render_chunks, bind at 1, get_list at 1 in HX.
  cbn [list_of_chunks] in HX.
  rewrite Hseq in HX at 1. rewrite for_each_app in HX. unfold bind at 1 in HX.
  rewrite (print_prefix_later w 0%nat cs1 0%nat) in HX;
    [| cbn [pending]; f_equal; lia
     | intros i x Hx; cbn [heap]; apply store_chunks_lookup;
       unfold cs; by apply lookup_app_l_Some ].
  cbn [seq for_each] in HX.
  unfold bind at 1, print_chunk at 1 in HX. unfold bind at 1 in HX.
  rewrite at_point_now in HX by reflexivity. unfold deliver in HX.
  cbn [sigint_handler with_pending set_ht] in HX.
  match type of HX with
  | context [signalHandler w SIGINT ?p0] =>
      destruct (@signalHandler_trace unit w SIGINT p0) as (st & p' & t & E & Ht);
      rewrite E in HX
  end.
  subst X. cbn [snd]. rewrite Ht. exists t.
  unfold with_pending, set_ht. cbn [trace heap list_of_chunks].
  fold cs. fold h0. rewrite length_seq, Hseq, delete_events_app.
  rewrite (delete_events_dead (seq 0%nat (length cs1)))
    by (intros a Ha; by apply drop_all_in).
  rewrite (delete_events_live (seq (length cs1) (S (length cs2)))).
  - rewrite <- !app_assoc. reflexivity.
  - apply NoDup_seq.
  - intros a Ha. apply elem_of_seq in Ha.
    rewrite !drop_all_notin by (rewrite elem_of_seq; lia).
    destruct (lookup_lt_is_Some_2 cs a) as [x Hx].
    { unfold cs. rewrite length_app. cbn [length]. lia. }
    exists x. by apply (store_chunks_lookup cs 0%nat ∅ a x).
Qed.

(** X11.  [SIGINT] arrives while the collection is being printed, when
    at least one chunk has been printed and deleted and the next chunk has
    not been started.  The handler prints the interrupt line and then
    hands to [delete] the first pointer of the list, whose chunk the
    printing loop has already deleted: the interrupt path deletes a chunk
    of the normal path a second time.  Up to there the chunks printed were
    each deleted once, alive. *)
Theorem interrupt_while_rendering
    (c0 : StoryChunk) (cs1 cs2 : list StoryChunk) (c : StoryChunk)
    (Hcs : delivered (the_read w q conf) = (c0 :: cs1) ++ c :: cs2) :
  (exists t,
     trace (snd (run w argv0 args (Some (8 + render_cost (c0 :: cs1))%nat)))
     = (prefix_trace q conf
        ++ [EvOut (count_line (length ((c0 :: cs1) ++ c :: cs2)))]
        ++ print_events (zip (seq 0%nat (length (c0 :: cs1))) (c0 :: cs1)))
       ++ EvOut (interrupt_line SIGINT) :: EvDelete 0%nat false :: t) /\
  deleted (print_events (zip (seq 0%nat (length (c0 :: cs1))) (c0 :: cs1)))
  = seq 0%nat (length (c0 :: cs1)) /\
  double_freed (print_events (zip (seq 0%nat (length (c0 :: cs1))) (c0 :: cs1)))
  = [] /\
  stdout (print_events (zip (seq 0%nat (length (c0 :: cs1))) (c0 :: cs1)))
  = rendering (c0 :: cs1).
Proof.
  split; [|split; [|split]].
  - destruct (run_interrupted_at_chunk (c0 :: cs1) cs2 c Hcs) as (t & Ht).
    rewrite Ht. cbn [length seq map]. eexists.
    rewrite <- !app_assoc. cbn [app]. reflexivity.
  - by rewrite deleted_print_events, fst_zip_seq.
  - apply double_freed_print_events.
  - by rewrite stdout_print_events, snd_zip_seq.
Qed.

Lemma run_interrupted_in_teardown (j : nat) :
  (j = 1 \/ j = 2)%nat ->
  exists p,
    run w argv0 args
      (Some (7 + (1 + render_cost (delivered (the_read w q conf))
                  + (length (delivered (the_read w q conf)) + 1 + j)))%nat)
    = (Exited SIGINT, p) /\
    trace p
    = (prefix_trace q conf
       ++ [EvOut (count_line (length (delivered (the_read w q conf))))]
       ++ print_events (zip (seq 0%nat (length (delivered (the_read w q conf))))
                            (delivered (the_read w q conf)))
       ++ map (fun a => EvDelete a false)
              (seq 0%nat (length (delivered (the_read w q conf))))
       ++ [EvClear])
      ++ EvShutdown
         :: (if decide (j = 2%nat) then [EvDeleteAgent] else [])
      ++ [EvOut (interrupt_line SIGINT); EvShutdown; EvDeleteAgent].
Proof.
  intros Hj. set (cs := delivered (the_read w q conf)).
  assert (Hgo : forall j',
    run w argv0 args
      (Some (7 + (1 + render_cost cs + (length cs + 1 + j')))%nat)
    = (match shutdown_agent w
               {| list_of_chunks := []; agent_ptr := Some (story_files_dir conf);
                  heap := drop_all (seq 0%nat (length cs))
                            (drop_all (seq 0%nat (length cs))
                               (store_chunks 0%nat cs ∅));
                  next_addr := length cs; sigint_handler := true;
                  pending := Some j';
                  trace := prefix_trace q conf
                    ++ [EvOut (count_line (length cs))]
                    ++ print_events (zip (seq 0%nat (length cs)) cs)
                    ++ map (fun a => EvDelete a false) (seq 0%nat (length cs))
                    ++ [EvClear] |} with
       | Val _ p' => (Exited 0, p')
       | Halt st p' => (st, p')
       end)).
  { intros j'.
    change (Some (7 + ?k)%nat) with (later 7 (Some k)).
    rewrite (run_reaches_read w argv0 args q Hflags Hfile conf r Hconf Hlog Hr
               s0 Hinit), Hread. fold cs.
    unfold bind at 1.
    rewrite (render_later w cs 0%nat (length cs + 1 + j'));
      [| reflexivity | reflexivity
       | intros i x Hx; by apply store_chunks_lookup ].
    unfold bind at 1. rewrite (release_later w j') by
      (cbn [pending with_pending set_ht list_of_chunks after_read];
       by rewrite length_seq).
    cbn [with_pending set_ht after_read list_of_chunks agent_ptr heap
         next_addr sigint_handler pending trace].
    rewrite (delete_events_dead (seq 0%nat (length cs)))
      by (intros a Ha; by apply drop_all_in).
    unfold bind, ret. rewrite <- !app_assoc.
    destruct (shutdown_agent w _); reflexivity. }
  destruct Hj as [-> | ->].
  - rewrite (Hgo 1%nat). eexists.
    unfold shutdown_agent, bind, at_point, the_agent, emit, call,
      ret, set_agent, deliver, signalHandler, out, get_list, get_agent, exit,
      halt, with_pending.
    cbn. rewrite Hshut. cbn. rewrite ?Hshut. cbn.
    split; [reflexivity|]. cbn. rewrite <- !app_assoc. reflexivity.
  - rewrite (Hgo 2%nat). eexists.
    unfold shutdown_agent, bind, at_point, the_agent, emit, call,
      ret, set_agent, deliver, signalHandler, out, get_list, get_agent, exit,
      halt, with_pending.
    cbn. rewrite Hshut. cbn. rewrite ?Hshut. cbn.
    split; [reflexivity|]. cbn. rewrite <- !app_assoc. reflexivity.
Qed.

(** X12.  No chunk was delivered, and [SIGINT] arrives during the
    teardown of the agent.  Between [shutdown()] and [delete agent_ptr]
    the handler finds the pointer still set and calls [shutdown] a second
    time, on the agent that main has already shut down.  Between
    [delete agent_ptr] and [agent_ptr = nullptr] the pointer is still set
    too, and the handler calls [shutdown] on the agent that main has
    already deleted.  Nothing is stated about what follows the handler's
    call. *)
Theorem signal_during_agent_teardown (k : nat)
    (Hnone : delivered (the_read w q conf) = []) :
  (S (S k) = statements (delivered (the_read w q conf)) ->
   exists t,
     trace (snd (run w argv0 args (Some k)))
     = rendered_trace q conf []
       ++ [EvClear; EvShutdown; EvOut (interrupt_line SIGINT); EvShutdown]
       ++ t) /\
  (S k = statements (delivered (the_read w q conf)) ->
   exists t,
     trace (snd (run w argv0 args (Some k)))
     = rendered_trace q conf []
       ++ [EvClear; EvShutdown; EvDeleteAgent;
           EvOut (interrupt_line SIGINT); EvShutdown]
       ++ t).
Proof.
  split; intros Hk.
  - destruct (run_interrupted_in_teardown 1%nat (or_introl eq_refl))
      as (p & Hrun & Ht).
    rewrite Hnone in Hrun, Ht, Hk.
    assert (k = 10%nat) as -> by (unfold statements in Hk; cbn in Hk; lia).
    cbn in Hrun. rewrite Hrun. cbn [snd]. rewrite Ht.
    exists [EvDeleteAgent]. unfold rendered_trace. cbn.
    rewrite <- ?app_assoc. reflexivity.
  - destruct (run_interrupted_in_teardown 2%nat (or_intror eq_refl))
      as (p & Hrun & Ht).
    rewrite Hnone in Hrun, Ht, Hk.
    assert (k = 11%nat) as -> by (unfold statements in Hk; cbn in Hk; lia).
    cbn in Hrun. rewrite Hrun. cbn [snd]. rewrite Ht.
    exists [EvDeleteAgent]. unfold rendered_trace. cbn.
    rewrite <- ?app_assoc. reflexivity.
Qed.

(** X13.  A run in which every collaborator returns, no chunk is
    delivered and no signal arrives ends with no chunk alive, the list
    empty and [agent_ptr] null; nothing was deleted twice, and its last
    three steps are, in this order, the clearing of the list, the one
    [shutdown] of the agent and the one [delete] of the agent. *)
Theorem normal_run_end_state
    (Hnone : delivered (the_read w q conf) = []) :
  heap (snd (run w argv0 args None)) = ∅ /\
  list_of_chunks (snd (run w argv0 args None)) = [] /\
  agent_ptr (snd (run w argv0 args None)) = None /\
  shutdowns (trace (snd (run w argv0 args None))) = 1%nat /\
  agent_deletes (trace (snd (run w argv0 args None))) = 1%nat /\
  double_freed (trace (snd (run w argv0 args None))) = [] /\
  trace (snd (run w argv0 args None))
  = rendered_trace q conf [] ++ [EvClear; EvShutdown; EvDeleteAgent].
Proof.
  rewrite (run_normal w argv0 args q Hflags Hfile conf r Hconf Hlog Hr s0 Hinit
             s1 s2 Hread Hshut).
  cbn [snd after_normal heap list_of_chunks agent_ptr trace].
  rewrite Hnone. unfold normal_trace, rendered_trace. cbn [length seq zip].
  repeat split.
Qed.

End Teardown.

(** ** Any run, again: exit status, reads, standard error *)

Section AnyWorld.

Variable w : World.

Lemma run_shutdown_throws argv0 args q conf r s0 s1 e :
  flag_loop args default_query = inr q -> conf_file q <> "" ->
  ConfigurationManager w (conf_file q) = Returns conf ->
  chrono_monitor_initialize w (CLIENT_LOG_CONF conf) = Returns r -> r <> 1 ->
  agent_initialize w (story_files_dir conf) = Returns s0 ->
  read_status (the_read w q conf) = Returns s1 ->
  agent_shutdown w (story_files_dir conf) = Throws e ->
  fst (run w argv0 args None) = Terminated e.
Proof.
  intros Hflags Hfile Hconf Hlog Hr Hinit Hread Hshut.
  change (@None nat) with (later 7 None).
  rewrite (run_reaches_read w argv0 args q Hflags Hfile conf r Hconf Hlog Hr
             s0 Hinit), Hread.
  set (cs := delivered (the_read w q conf)).
  unfold bind at 1.
  rewrite (render_live w (zip (seq 0%nat (length cs)) cs));
    [| reflexivity | cbn; by rewrite fst_zip_seq
     | rewrite fst_zip_seq; apply NoDup_seq
     | intros a c; apply store_chunks_zip ].
  unfold bind at 1. rewrite release_spec by reflexivity.
  unfold bind at 1, shutdown_agent, bind, at_point, the_agent, emit, call.
  cbn. rewrite Hshut. reflexivity.
Qed.

(** X14.  A run without a signal that ends with status 0 and in which
    no chunk was deleted twice is a run in which a configuration file was
    given, every collaborator returned, the logger with a value other than
    1, and [readArchivedStory] delivered no chunk.  The values that
    [initialize], [readArchivedStory] and [shutdown] return are not
    constrained. *)
Theorem clean_exit_only_if (argv0 : string) (args : list string)
    (Hzero : fst (run w argv0 args None) = Exited 0)
    (Hclean : double_freed (trace (snd (run w argv0 args None))) = []) :
  exists q conf r s0 s1 s2,
    flag_loop args default_query = inr q /\ conf_file q <> "" /\
    ConfigurationManager w (conf_file q) = Returns conf /\
    chrono_monitor_initialize w (CLIENT_LOG_CONF conf) = Returns r /\
    r <> 1 /\
    agent_initialize w (story_files_dir conf) = Returns s0 /\
    read_status (the_read w q conf) = Returns s1 /\
    agent_shutdown w (story_files_dir conf) = Returns s2 /\
    delivered (the_read w q conf) = [].
Proof.
  rename Hzero into H.
  destruct (flag_loop args default_query) as [e|q] eqn:Hflags.
  { unfold run in H. rewrite (main_bad_flags w argv0 args e Hflags) in H.
    discriminate. }
  destruct (String.eqb_spec (conf_file q) "") as [Hfile|Hfile].
  { unfold run in H.
    rewrite (main_without_config w argv0 args q Hflags Hfile) in H.
    discriminate. }
  destruct (ConfigurationManager w (conf_file q)) as [conf|e] eqn:Hconf.
  2:{ exfalso. revert H. unfold run.
      rewrite (main_with_config w argv0 args q Hflags Hfile).
      unfold query_body, bind, at_point, emit, call. cbn. rewrite Hconf.
      discriminate. }
  destruct (chrono_monitor_initialize w (CLIENT_LOG_CONF conf))
    as [r|e] eqn:Hlog.
  2:{ exfalso. revert H. unfold run.
      rewrite (main_with_config w argv0 args q Hflags Hfile).
      unfold query_body, bind, at_point, emit, call. cbn. rewrite Hconf.
      cbn. rewrite Hlog. discriminate. }
  destruct (Z.eq_dec r 1) as [->|Hr].
  { exfalso. revert H. unfold run.
    rewrite (main_with_config w argv0 args q Hflags Hfile).
    unfold query_body, bind, at_point, emit, call. cbn. rewrite Hconf.
    cbn. rewrite Hlog. discriminate. }
  destruct (agent_initialize w (story_files_dir conf)) as [s0|e] eqn:Hinit.
  2:{ rewrite (run_initialize_throws w argv0 args q Hflags Hfile conf r
                 Hconf Hlog Hr e Hinit) in H. discriminate. }
  destruct (read_status (the_read w q conf)) as [s1|e] eqn:Hread.
  2:{ rewrite (run_read_throws w argv0 args q Hflags Hfile conf r Hconf Hlog
                 Hr s0 Hinit e Hread) in H. discriminate. }
  destruct (agent_shutdown w (story_files_dir conf)) as [s2|e] eqn:Hshut.
  2:{ rewrite (run_shutdown_throws argv0 args q conf r s0 s1 e Hflags Hfile
                 Hconf Hlog Hr Hinit Hread Hshut) in H. discriminate. }
  exists q, conf, r, s0, s1, s2. repeat split; try assumption.
  rewrite (run_normal w argv0 args q Hflags Hfile conf r Hconf Hlog Hr
             s0 Hinit s1 s2 Hread Hshut) in Hclean.
  cbn [snd after_normal trace] in Hclean. unfold normal_trace in Hclean.
  rewrite !double_freed_app, double_freed_print_events, double_freed_dead
    in Hclean.
  cbn in Hclean. rewrite app_nil_r in Hclean.
  destruct (delivered (the_read w q conf)) as [|c cs]; [reflexivity|].
  discriminate.
Qed.

(** X15.  In every run, whatever the collaborators do and whenever a
    signal arrives, [readArchivedStory] is called at most once, and if it
    is called, then with the names and the window the flag loop produced. *)
Theorem at_most_one_read (argv0 : string) (args : list string)
    (sig : option nat) :
  reads (trace (snd (run w argv0 args sig))) = [] \/
  exists q, flag_loop args default_query = inr q /\ conf_file q <> "" /\
            reads (trace (snd (run w argv0 args sig)))
            = [(chronicle_name q, story_name q, start_time q, end_time q, [])].
Proof.
  unfold run, main. destruct (flag_loop args default_query) as [e|q] eqn:Hq.
  { left. reflexivity. }
  destruct (String.eqb_spec (conf_file q) "") as [Hfile|Hfile].
  { left. unfold bind, at_point, err, emit, ret.
    destruct sig as [[|n]|]; reflexivity. }
  pose proof (query_body_safe w q (init_proc sig) eq_refl) as H.
  destruct (query_body w q (init_proc sig)) as [code p|st p]; cbn [snd].
  - destruct H as [[Hr|Hr] _]; [by left|]. right. by exists q.
  - destruct H as [_ [Hr|Hr]]; [by left|]. right. by exists q.
Qed.

Lemma hushed_ret {A} (a : A) : hushed (ret a).
Proof. intros p. reflexivity. Qed.
Lemma hushed_halt {A} st : hushed (@halt A st).
Proof. intros p. reflexivity. Qed.
Lemma hushed_call {A} (o : Outcome A) : hushed (call o).
Proof. destruct o; intros p; reflexivity. Qed.
Lemma hushed_bind {A B} (m : M A) (k : A -> M B) :
  hushed m -> (forall a, hushed (k a)) -> hushed (bind m k).
Proof.
  intros Hm Hk p. unfold bind. specialize (Hm p).
  destruct (m p) as [a p1|st p1]; [|exact Hm].
  cbn [final] in Hm. rewrite <- Hm. apply Hk.
Qed.
Lemma hushed_for_each {A} (l : list A) (body : A -> M unit) :
  (forall x, hushed (body x)) -> hushed (for_each l body).
Proof.
  intros Hb. induction l as [|x l IH]; simpl.
  - apply hushed_ret.
  - apply hushed_bind; [apply Hb | intros _; exact IH].
Qed.
Lemma hushed_emit e : stderr [e] = [] -> hushed (emit e).
Proof.
  intros He p. unfold emit. cbn. unfold stderr in *.
  rewrite omap_app, He, app_nil_r. reflexivity.
Qed.
Lemma hushed_delete_chunk a : hushed (delete_chunk a).
Proof.
  intros p. unfold delete_chunk. cbn. unfold stderr.
  rewrite omap_app. cbn. by rewrite app_nil_r.
Qed.
Lemma hushed_chunk_at a : hushed (chunk_at a).
Proof. intros p. unfold chunk_at. destruct (heap p !! a); reflexivity. Qed.
Lemma hushed_the_agent : hushed the_agent.
Proof. intros p. unfold the_agent. destruct (agent_ptr p); reflexivity. Qed.

Ltac hush :=
  repeat first
    [ apply hushed_bind; [| intros ?]
    | apply hushed_for_each; intros ?
    | apply hushed_emit; reflexivity
    | apply hushed_delete_chunk
    | apply hushed_chunk_at
    | apply hushed_the_agent
    | apply hushed_call
    | apply hushed_halt
    | apply hushed_ret
    | solve [intros ?; reflexivity]
    | match goal with
      | |- hushed (match ?x with _ => _ end) => destruct x
      end ].

Lemma hushed_deliver {A} sig : hushed (@deliver w A sig).
Proof.
  intros p. unfold deliver. destruct (sigint_handler p); [|reflexivity].
  revert p. change (hushed (@signalHandler w A sig)).
  unfold signalHandler, out, exit. hush.
Qed.

Lemma hushed_at_point {A} (m : M A) : hushed m -> hushed (at_point w m).
Proof.
  intros Hm p. unfold at_point. destruct (pending p) as [[|n]|].
  - apply (@hushed_deliver A SIGINT (with_pending None p)).
  - apply (Hm (with_pending (Some n) p)).
  - apply Hm.
Qed.

Lemma hushed_query_body q : hushed (query_body w q).
Proof.
  unfold query_body, render, render_chunks, print_chunk, release,
    shutdown_agent, read_story, out.
  cbv zeta.
  repeat first
    [ apply hushed_at_point
    | apply hushed_bind; [| intros ?]
    | apply hushed_for_each; intros ?
    | apply hushed_emit; reflexivity
    | apply hushed_delete_chunk
    | apply hushed_chunk_at
    | apply hushed_the_agent
    | apply hushed_call
    | apply hushed_ret
    | solve [intros ?; reflexivity]
    | match goal with
      | |- hushed (if ?b then _ else _) => destruct b
      end ].
Qed.

(** X16.  The usage text is the only thing the script ever writes to
    standard error, and it writes it only when the flag loop completed
    without a configuration file.  Once a configuration file is given,
    nothing goes to standard error, whatever fails afterwards. *)
Theorem stderr_is_usage_only (argv0 : string) (args : list string)
    (sig : option nat) :
  stderr (trace (snd (run w argv0 args sig))) = [] \/
  (stderr (trace (snd (run w argv0 args sig))) = [usage argv0] /\
   exists q, flag_loop args default_query = inr q /\ conf_file q = "").
Proof.
  unfold run, main. destruct (flag_loop args default_query) as [e|q] eqn:Hq.
  { left. reflexivity. }
  destruct (String.eqb_spec (conf_file q) "") as [Hfile|Hfile].
  { unfold bind, at_point, err, emit, ret.
    destruct sig as [[|n]|]; cbn; [by left | right | right];
      (split; [reflexivity | by exists q]). }
  left. pose proof (hushed_query_body q (init_proc sig)) as H.
  destruct (query_body w q (init_proc sig)); exact H.
Qed.

End AnyWorld.

(** ** Instances *)

Lemma startup_failures_witness :
  fst (run world_logger_fails "reader" plain_args None) = Exited 1 /\
  trace (snd (run world_logger_fails "reader" plain_args None))
  = [EvConfigure "conf.json"; EvMonitorInit].
Proof.
  destruct (proj2 (proj2 (startup_failures world_logger_fails "reader"
                            plain_args plain_query eq_refl ltac:(discriminate)))
              sample_conf eq_refl eq_refl) as (H1 & H2 & _).
  exact (conj H1 H2).
Defined.

Lemma signal_before_handler_witness :
  fst (run (world_of [chunk_A]) "reader" plain_args (Some 2%nat)) = Killed 2.
Proof.
  exact (proj1 (signal_before_handler (world_of [chunk_A]) "reader" plain_args
                  plain_query eq_refl ltac:(discriminate) sample_conf 0
                  eq_refl eq_refl ltac:(discriminate) 2%nat (le_n 2))).
Defined.

Lemma signal_before_agent_witness :
  fst (run (world_of [chunk_A]) "reader" plain_args (Some 3%nat)) = Exited 2 /\
  agent_ptr (snd (run (world_of [chunk_A]) "reader" plain_args (Some 3%nat)))
  = None.
Proof.
  destruct (signal_before_agent (world_of [chunk_A]) "reader" plain_args
              plain_query eq_refl ltac:(discriminate) sample_conf 0
              eq_refl eq_refl ltac:(discriminate)) as (H1 & _ & H3).
  exact (conj H1 H3).
Defined.

Lemma signal_before_read_witness :
  fst (run (world_of [chunk_A]) "reader" plain_args (Some 4%nat)) = Exited 2 /\
  shutdowns (trace (snd (run (world_of [chunk_A]) "reader" plain_args
                           (Some 4%nat)))) = 1%nat /\
  reads (trace (snd (run (world_of [chunk_A]) "reader" plain_args
                       (Some 4%nat)))) = [].
Proof.
  destruct (signal_before_read (world_of [chunk_A]) "reader" plain_args
              plain_query eq_refl ltac:(discriminate) sample_conf 0
              eq_refl eq_refl ltac:(discriminate) 4%nat 0 0
              ltac:(lia) eq_refl eq_refl) as (H1 & _ & _ & H2 & H3 & _).
  exact (conj H1 (conj H2 H3)).
Defined.

Lemma interrupt_while_rendering_witness :
  exists t,
    trace (snd (run (world_of [chunk_A; chunk_B]) "reader" plain_args
                  (Some 13%nat)))
    = (prefix_trace plain_query sample_conf
       ++ [EvOut (count_line 2)]
       ++ print_events [(0%nat, chunk_A)])
      ++ EvOut (interrupt_line SIGINT) :: EvDelete 0%nat false :: t.
Proof.
  exact (proj1 (interrupt_while_rendering (world_of [chunk_A; chunk_B]) "reader"
                  plain_args plain_query eq_refl ltac:(discriminate) sample_conf
                  0 0 0 eq_refl eq_refl ltac:(discriminate) eq_refl eq_refl
                  chunk_A [] [] chunk_B eq_refl)).
Defined.

Lemma signal_during_agent_teardown_witness :
  exists t,
    trace (snd (run (world_of []) "reader" plain_args (Some 11%nat)))
    = rendered_trace plain_query sample_conf []
      ++ [EvClear; EvShutdown; EvDeleteAgent;
          EvOut (interrupt_line SIGINT); EvShutdown]
      ++ t.
Proof.
  exact (proj2 (signal_during_agent_teardown (world_of []) "reader"
                  plain_args plain_query eq_refl ltac:(discriminate)
                  sample_conf 0 0 0 0 eq_refl eq_refl ltac:(discriminate)
                  eq_refl eq_refl eq_refl 11%nat eq_refl) eq_refl).
Defined.

Lemma normal_run_end_state_witness :
  heap (snd (run (world_of []) "reader" plain_args None)) = ∅ /\
  agent_ptr (snd (run (world_of []) "reader" plain_args None)) = None /\
  double_freed (trace (snd (run (world_of []) "reader" plain_args None))) = [].
Proof.
  destruct (normal_run_end_state (world_of []) "reader"
              plain_args plain_query eq_refl ltac:(discriminate) sample_conf 0
              0 0 0 eq_refl eq_refl ltac:(discriminate) eq_refl eq_refl eq_refl
              eq_refl)
    as (H1 & _ & H3 & _ & _ & H6 & _).
  exact (conj H1 (conj H3 H6)).
Defined.

Lemma clean_exit_only_if_witness :
  exists q conf r s0 s1 s2,
    flag_loop plain_args default_query = inr q /\ conf_file q <> "" /\
    ConfigurationManager (world_of []) (conf_file q) = Returns conf /\
    chrono_monitor_initialize (world_of []) (CLIENT_LOG_CONF conf) = Returns r /\
    r <> 1 /\
    agent_initialize (world_of []) (story_files_dir conf) = Returns s0 /\
    read_status (the_read (world_of []) q conf) = Returns s1 /\
    agent_shutdown (world_of []) (story_files_dir conf) = Returns s2 /\
    delivered (the_read (world_of []) q conf) = [].
Proof.
  apply (clean_exit_only_if (world_of []) "reader" plain_args).
  - vm_compute. reflexivity.
  - vm_compute. reflexivity.
Defined.
